(** * finance-chat-bot-backend: session bootstrap, inbound filter and router

    A shallow embedding of [src/index.ts] (the entry point [main] and the two
    process-level listeners) and of [src/bot/whatsapp.ts] (the class
    [WhatsAppBot]: [connect], its [connection.update] and [messages.upsert]
    listeners, [sendMessage] and [reply]).

    Conventions.
    - A JavaScript string is a [string]: a sequence of code units below 256.
    - [process.env] is a finite map from names to strings, held in the state
      because the program reads it at two different times; the program never
      writes it, code outside these two files may.
    - The collaborators of the program that live outside the repository (the
      Baileys socket, the version and credential loaders, the message
      interpreter) are parameters acting on an abstract [World].
    - Every [console.log] / [console.error] statement of the source has its own
      constructor of [line]; the output of a run is the list of [effect]s in
      the order in which they happened. *)

From Stdlib Require Import ZArith Ascii String List Bool Lia.
From stdpp Require Import base option gmap strings.
Import ListNotations.

#[local] Open Scope string_scope.
#[local] Open Scope Z_scope.

(** ** JavaScript string and array primitives used by the program *)

Module Js.

(** The code units below 256 that [String.prototype.trim] removes:
    TAB, LF, VT, FF, CR, SPACE and NBSP. *)
Definition is_white_space (c : ascii) : bool :=
  let n := nat_of_ascii c in
  (Nat.eqb n 9 || Nat.eqb n 10 || Nat.eqb n 11 || Nat.eqb n 12
   || Nat.eqb n 13 || Nat.eqb n 32 || Nat.eqb n 160)%bool.

(** Truthiness of a string: every string but the empty one. *)
Definition truthy (s : string) : bool :=
  match s with
  | EmptyString => false
  | String _ _ => true
  end.

Fixpoint trimStart (s : string) : string :=
  match s with
  | EmptyString => EmptyString
  | String c s' => if is_white_space c then trimStart s' else s
  end.

Fixpoint trimEnd (s : string) : string :=
  match s with
  | EmptyString => EmptyString
  | String c s' =>
      let r := trimEnd s' in
      if (is_white_space c && negb (truthy r))%bool then EmptyString
      else String c r
  end.

Definition trim (s : string) : string := trimEnd (trimStart s).

(** [s.split(sep)] for a one-character separator. The result always has at
    least one entry: [''.split(',')] is [['']]. *)
Fixpoint split (sep : ascii) (s : string) : list string :=
  match s with
  | EmptyString => [EmptyString]
  | String c s' =>
      if Ascii.eqb c sep then EmptyString :: split sep s'
      else match split sep s' with
           | h :: t => String c h :: t
           | [] => [String c EmptyString]
           end
  end.

(** [arr.includes(x)] on an array of strings. *)
Definition includes (arr : list string) (x : string) : bool :=
  existsb (String.eqb x) arr.

Fixpoint startsWith (s p : string) : bool :=
  match p, s with
  | EmptyString, _ => true
  | String _ _, EmptyString => false
  | String a p', String b s' => (Ascii.eqb a b && startsWith s' p')%bool
  end.

(** [s.includes(p)]: [p] occurs somewhere in [s]. *)
Fixpoint str_includes (s p : string) : bool :=
  (startsWith s p
   || match s with
      | EmptyString => false
      | String _ s' => str_includes s' p
      end)%bool.

Fixpoint drop (n : nat) (s : string) : string :=
  match n, s with
  | O, _ => s
  | S n', String _ s' => drop n' s'
  | S _, EmptyString => EmptyString
  end.

Definition endsWith (s p : string) : bool :=
  (Nat.leb (String.length p) (String.length s)
   && String.eqb (drop (String.length s - String.length p) s) p)%bool.

(** [s.substring(0, n)]. *)
Fixpoint take (n : nat) (s : string) : string :=
  match n, s with
  | S n', String c s' => String c (take n' s')
  | _, _ => EmptyString
  end.

(** [a || b] on strings that may be [undefined]. *)
Definition or_else (a : option string) (b : option string) : option string :=
  match a with
  | Some s => if truthy s then a else b
  | None => b
  end.

End Js.

(** ** The allow-list expression

    [process.env.ALLOWED_CHATS?.split(',').map(c => c.trim()).filter(c => c) || []]
    occurs twice in the source. Both occurrences are embedded, each under the
    module of the file it is written in. An array is always truthy, so the
    [|| []] only fires when [?.] short-circuited to [undefined]. *)

Definition optional_chain {A B : Type} (v : option A) (f : A -> B) : option B :=
  match v with
  | Some a => Some (f a)
  | None => None
  end.

Definition or_array {A : Type} (v : option (list A)) (dflt : list A) : list A :=
  match v with
  | Some arr => arr
  | None => dflt
  end.

Module Index.

(** index.ts, lines 25-28. *)
Definition allowedChats (ALLOWED_CHATS : option string) : list string :=
  or_array
    (optional_chain ALLOWED_CHATS
       (fun v => List.filter (fun c => Js.truthy c)
                   (List.map (fun c => Js.trim c) (Js.split "," v))))
    [].

End Index.

Module WhatsApp.

(** whatsapp.ts, line 116. *)
Definition allowedChats (ALLOWED_CHATS : option string) : list string :=
  or_array
    (optional_chain ALLOWED_CHATS
       (fun v => List.filter (fun c => Js.truthy c)
                   (List.map (fun c => Js.trim c) (Js.split "," v))))
    [].

End WhatsApp.

(** The parse as the specification words it: split on commas, trim each entry,
    drop blank entries, and default to the empty list when the variable is
    unset. Written entry by entry, to be compared with the two source
    expressions. *)
Definition blank (c : string) : bool := negb (Js.truthy c).

Fixpoint keep_entries (entries : list string) : list string :=
  match entries with
  | [] => []
  | e :: rest =>
      let t := Js.trim e in
      if blank t then keep_entries rest else t :: keep_entries rest
  end.

Definition parse_allow_list (value : option string) : list string :=
  match value with
  | None => []
  | Some v => keep_entries (Js.split "," v)
  end.

(** ** Values exchanged with the protocol layer *)

Record js_error := JsError { message : string }.

(** index.ts, line 40. *)
Definition no_chats_error : js_error :=
  JsError "Nenhum chat autorizado configurado em ALLOWED_CHATS".

(** whatsapp.ts, lines 164 and 180: 'Bot não está conectado'. *)
Definition not_connected_error : js_error :=
  JsError ("Bot n" ++ String (ascii_of_nat 227) "o est"
           ++ String (ascii_of_nat 225) " conectado").

(** The inbound event shape: [WAMessage]. The listener reads the sender as
    [msg.key.remoteJid!], a string. *)
Record Key := { fromMe : bool; remoteJid : string }.
Record ExtendedTextMessage := { text : option string }.
Record Message := {
  conversation : option string;
  extendedTextMessage : option ExtendedTextMessage
}.
Record WAMessage := { key : Key; message_ : option Message }.

(** The argument of the [connection.update] listener. *)
Inductive connection_value := connecting | open | close.
Record Boom := { statusCode : option Z; boom_message : option string }.
Record LastDisconnect := { error : option Boom }.
Record ConnectionUpdate := {
  connection : option connection_value;
  lastDisconnect : option LastDisconnect;
  qr : option string
}.

(** ** Console output and other observable effects *)

Inductive line :=
  (* index.ts *)
  | Starting                                      (* 12 *)
  | OnlyAuthorizedChats                           (* 30 *)
  | Rule                                          (* 31 *)
  | ChatLabel (group : bool) (chat : string)      (* 33-34 *)
  | NoChatConfigured                              (* 37-39 *)
  | MissingHeader                                 (* 46 *)
  | MissingVar (varName : string)                 (* 47 *)
  | CreateEnvFile                                 (* 48 *)
  | Processing (from : string)                    (* 59 *)
  | ResponseSent (head : string)                  (* 67 *)
  | Started                                       (* 73 *)
  | WaitingQr                                     (* 74 *)
  | StartError (e : js_error)                     (* 76 *)
  | UnhandledLine (e : js_error)                  (* 90 *)
  | UncaughtLine (e : js_error)                   (* 100 *)
  (* whatsapp.ts *)
  | AuthFolder                                    (* 31 *)
  | UsingVersion (version : list Z) (isLatest : bool)  (* 35 *)
  | ConnectionStatus (c : option connection_value)     (* 61 *)
  | ScanQr                                        (* 65 *)
  | QrBroken                                      (* 69 *)
  | QrBar                                         (* 70, 72 *)
  | QrText (qr : string)                          (* 71 *)
  | QrSites                                       (* 73 *)
  | QrThenScan                                    (* 74 *)
  | Connected                                     (* 79 *)
  | ConnectionClosed                              (* 87 *)
  | ClosedCode (statusCode : option Z)            (* 88 *)
  | ClosedReason (reason : string)                (* 89 *)
  | ClosedReconnect (shouldReconnect : bool)      (* 90 *)
  | WaitingReconnect                              (* 93 *)
  | SessionEnded                                  (* 98 *)
  | Authorized (from : string)                    (* 125 *)
  | GroupHint (from : string)                     (* 129 *)
  | ContactHint (from : string)                   (* 131 *)
  | MessageFrom (from messageText : string)       (* 142 *)
  | ProcessError (e : js_error)                   (* 147 *)
  | ConnectError (e : js_error)                   (* 154 *)
  | SendError (e : js_error).                     (* 170 *)

Inductive effect :=
  | ConsoleLog (l : line)
  | ConsoleError (l : line)
  | QrcodeGenerate (qr : string)                  (* whatsapp.ts 66 *)
  | MakeWASocket                                  (* whatsapp.ts 41 *)
  | SetTimeout (ms : Z)                           (* whatsapp.ts 94-96 *)
  | HandleMessage (text : string)                 (* index.ts 62 *)
  | SockSendMessage (to text : string) (quoted : option WAMessage).
                                                  (* whatsapp.ts 168, 183 *)

(** Texts passed to [messageHandler.handleMessage], in order. *)
Fixpoint handler_calls (t : list effect) : list string :=
  match t with
  | [] => []
  | HandleMessage x :: t' => x :: handler_calls t'
  | _ :: t' => handler_calls t'
  end.

(** Outbound sends handed to the socket, in order. *)
Fixpoint replies (t : list effect) : list (string * string) :=
  match t with
  | [] => []
  | SockSendMessage to x _ :: t' => (to, x) :: replies t'
  | _ :: t' => replies t'
  end.

(** Every entry into [connect] starts with the line of whatsapp.ts 31. *)
Fixpoint connect_calls (t : list effect) : nat :=
  match t with
  | [] => O
  | ConsoleLog AuthFolder :: t' => S (connect_calls t')
  | _ :: t' => connect_calls t'
  end.

(** Sockets created so far. *)
Fixpoint sockets_made (t : list effect) : nat :=
  match t with
  | [] => O
  | MakeWASocket :: t' => S (sockets_made t')
  | _ :: t' => sockets_made t'
  end.

(** Keys reported on line 47, in order. *)
Fixpoint reported_missing (t : list effect) : list string :=
  match t with
  | [] => []
  | ConsoleError (MissingVar k) :: t' => k :: reported_missing t'
  | _ :: t' => reported_missing t'
  end.

(** ** Collaborators outside the repository

    Each one may change the outside world and may throw. *)

Class Collaborators (World : Type) := {
  (** [DisconnectReason.loggedOut] of Baileys. *)
  loggedOut : Z;
  fetchLatestBaileysVersion : World -> (js_error + (list Z * bool)) * World;
  useMultiFileAuthState : World -> (js_error + unit) * World;
  (** [this.sock.sendMessage(to, { text }, options)]. *)
  sock_sendMessage :
    string -> string -> option WAMessage -> World -> (js_error + unit) * World;
  (** [new MessageHandler()] and [messageHandler.handleMessage(message)],
      from ./bot/messageHandler. *)
  new_MessageHandler : World -> (js_error + unit) * World;
  handleMessage : string -> World -> (js_error + string) * World
}.

(** ** The program monad: state, exceptions and [process.exit] *)

Inductive completion (A : Type) :=
  | Normal (a : A)
  | Thrown (e : js_error)       (* a throw, or the rejection of an awaited promise *)
  | Exited (code : Z).          (* process.exit(code) was called *)

Arguments Normal {A} a.
Arguments Thrown {A} e.
Arguments Exited {A} code.

Section Program.

Context {World : Type} {collaborators : Collaborators World}.

(** [sock] is the private field of [WhatsAppBot] ([null] until [connect]
    creates a socket; the number tells the sockets apart). [timers] holds the
    delays of the pending [setTimeout] callbacks, each of which is
    [this.connect(onMessage)]. *)
Record state := mkState {
  env : gmap string string;
  world : World;
  sock : option nat;
  timers : list Z;
  out : list effect
}.

Definition M (A : Type) : Type := state -> completion A * state.

#[global] Instance M_ret : MRet M := fun A a st => (Normal a, st).

#[global] Instance M_bind : MBind M := fun A B f m st =>
  match m st with
  | (Normal a, st') => f a st'
  | (Thrown e, st') => (Thrown e, st')
  | (Exited c, st') => (Exited c, st')
  end.

Definition throw {A : Type} (e : js_error) : M A := fun st => (Thrown e, st).

Definition process_exit {A : Type} (code : Z) : M A :=
  fun st => (Exited code, st).

(** [try { body } catch (error) { handler error }]. *)
Definition try_catch {A : Type} (body : M A) (handler : js_error -> M A) : M A :=
  fun st =>
    match body st with
    | (Thrown e, st') => handler e st'
    | r => r
    end.

(** [st] after the effects [es] were appended to its output. *)
Definition logged (st : state) (es : list effect) : state :=
  mkState (env st) (world st) (sock st) (timers st) (out st ++ es).

Definition emit (e : effect) : M unit := fun st => (Normal tt, logged st [e]).

Definition console_log (l : line) : M unit := emit (ConsoleLog l).
Definition console_error (l : line) : M unit := emit (ConsoleError l).

(** A read of [process.env]. *)
Definition read_env {A : Type} (f : gmap string string -> A) : M A :=
  fun st => (Normal (f (env st)), st).

(** [process.env[name]]. *)
Definition process_env (name : string) : M (option string) :=
  read_env (fun e => e !! name).

(** [new WhatsAppBot()]: a bot whose [sock] is [null]. *)
Definition new_WhatsAppBot : M unit := fun st =>
  (Normal tt, mkState (env st) (world st) None (timers st) (out st)).

Definition this_sock : M (option nat) := fun st => (Normal (sock st), st).

(** A call into a collaborator. *)
Definition external {A : Type}
    (f : World -> (js_error + A) * World) : M A := fun st =>
  let '(r, w) := f (world st) in
  let st' := mkState (env st) w (sock st) (timers st) (out st) in
  match r with
  | inl e => (Thrown e, st')
  | inr a => (Normal a, st')
  end.

(** [this.sock = makeWASocket({...})]. *)
Definition makeWASocket : M unit := fun st =>
  (Normal tt,
   mkState (env st) (world st) (Some (sockets_made (out st))) (timers st)
           (out st ++ [MakeWASocket])).

(** [setTimeout(() => { this.connect(onMessage) }, ms)]. *)
Definition setTimeout (ms : Z) : M unit := fun st =>
  (Normal tt,
   mkState (env st) (world st) (sock st) (timers st ++ [ms])
           (out st ++ [SetTimeout ms])).

(** [arr.forEach(f)]. *)
Fixpoint forEach {A : Type} (arr : list A) (f : A -> M unit) : M unit :=
  match arr with
  | [] => mret tt
  | x :: rest => f x ;; forEach rest f
  end.

(** *** index.ts, lines 82-102: the process-level listeners *)

Definition known_decrypt_noise (errorMsg : string) : bool :=
  (Js.str_includes errorMsg "Bad MAC"
   || Js.str_includes errorMsg "decrypt"
   || Js.str_includes errorMsg "Session error")%bool.

Definition unhandledRejection (error : js_error) : M unit :=
  let errorMsg := message error in
  if known_decrypt_noise errorMsg then mret tt
  else console_error (UnhandledLine error).

Definition uncaughtException (error : js_error) : M unit :=
  if known_decrypt_noise (message error) then mret tt
  else console_error (UncaughtLine error) ;; process_exit 1.

(** A promise nobody awaits: its rejection goes to [unhandledRejection]. *)
Definition detached (p : M unit) : M unit := try_catch p unhandledRejection.

(** *** whatsapp.ts, lines 162-173 and 178-186 *)

Definition sendMessage (to message : string) : M unit :=
  s ← this_sock;
  match s with
  | None => throw not_connected_error
  | Some _ =>
      try_catch
        (emit (SockSendMessage to message None) ;;
         external (sock_sendMessage to message None))
        (fun error => console_error (SendError error))
  end.

Definition reply (to message : string) (quotedMessage : option WAMessage)
  : M unit :=
  s ← this_sock;
  match s with
  | None => throw not_connected_error
  | Some _ =>
      emit (SockSendMessage to message quotedMessage) ;;
      external (sock_sendMessage to message quotedMessage)
  end.

(** *** whatsapp.ts, lines 58-101: the [connection.update] listener *)

(** Line 84: [(lastDisconnect?.error as Boom)?.output?.statusCode]. *)
Definition statusCode_of (u : ConnectionUpdate) : option Z :=
  match lastDisconnect u with
  | Some d => match error d with
              | Some b => statusCode b
              | None => None
              end
  | None => None
  end.

(** Line 85: [statusCode !== DisconnectReason.loggedOut]. *)
Definition shouldReconnect (statusCode : option Z) : bool :=
  match statusCode with
  | Some c => negb (c =? loggedOut)
  | None => true
  end.

(** Line 89: [lastDisconnect?.error?.message || 'desconhecido']. *)
Definition reason_of (u : ConnectionUpdate) : string :=
  let m := match lastDisconnect u with
           | Some d => match error d with
                       | Some b => boom_message b
                       | None => None
                       end
           | None => None
           end in
  match Js.or_else m (Some "desconhecido") with
  | Some s => s
  | None => ""
  end.

Definition connection_update (u : ConnectionUpdate) : M unit :=
  console_log (ConnectionStatus (connection u)) ;;
  match qr u with
  | Some q =>
      if Js.truthy q then
        console_log ScanQr ;;
        emit (QrcodeGenerate q) ;;
        console_log QrBroken ;;
        console_log QrBar ;;
        console_log (QrText q) ;;
        console_log QrBar ;;
        console_log QrSites ;;
        console_log QrThenScan
      else mret tt
  | None => mret tt
  end ;;
  match connection u with
  | Some open => console_log Connected
  | _ => mret tt
  end ;;
  match connection u with
  | Some close =>
      let statusCode := statusCode_of u in
      let shouldReconnect := shouldReconnect statusCode in
      console_log ConnectionClosed ;;
      console_log (ClosedCode statusCode) ;;
      console_log (ClosedReason (reason_of u)) ;;
      console_log (ClosedReconnect shouldReconnect) ;;
      if shouldReconnect then
        console_log WaitingReconnect ;;
        setTimeout 5000
      else console_log SessionEnded
  | _ => mret tt
  end.

(** *** whatsapp.ts, lines 104-151: the [messages.upsert] listener *)

(** How one pass through the body of [for (const msg of messages)] ends. *)
Inductive flow := Continue | Return.

(** Lines 136-139. *)
Definition messageText_of (m : Message) : string :=
  let ext := match extendedTextMessage m with
             | Some x => text x
             | None => None
             end in
  match Js.or_else (Js.or_else (conversation m) ext) (Some "") with
  | Some s => s
  | None => ""
  end.

(** Lines 119-149, with the array of line 116 as [allowedChats]. *)
Definition filter_and_route (onMessage : string -> string -> M unit)
    (allowedChats : list string) (from : string) (m : Message) : M flow :=
  proceed ←
    (if (0 <? Z.of_nat (length allowedChats)) then
       if negb (Js.includes allowedChats from) then mret false
       else console_log (Authorized from) ;; mret true
     else
       (if Js.endsWith from "@g.us" then console_log (GroupHint from)
        else console_log (ContactHint from)) ;;
       mret true);
  if negb proceed then mret Return
  else
    let messageText := messageText_of m in
    if Js.truthy messageText then
      console_log (MessageFrom from messageText) ;;
      try_catch (onMessage from messageText)
                (fun error => console_error (ProcessError error)) ;;
      mret Continue
    else mret Continue.

(** Lines 106-150: the loop body. *)
Definition upsert_body (onMessage : string -> string -> M unit)
    (msg : WAMessage) : M flow :=
  if fromMe (key msg) then mret Continue
  else
    match message_ msg with
    | None => mret Continue
    | Some m =>
        let from := remoteJid (key msg) in
        v ← process_env "ALLOWED_CHATS";
        let allowedChats := WhatsApp.allowedChats v in
        filter_and_route onMessage allowedChats from m
    end.

Fixpoint messages_upsert (onMessage : string -> string -> M unit)
    (messages : list WAMessage) : M unit :=
  match messages with
  | [] => mret tt
  | msg :: rest =>
      f ← upsert_body onMessage msg;
      match f with
      | Continue => messages_upsert onMessage rest
      | Return => mret tt
      end
  end.

(** *** whatsapp.ts, lines 28-157: [connect]

    The listeners registered on the new socket are [connection_update] and
    [messages_upsert onMessage]; registering them has no effect of its own. *)
Definition connect (onMessage : string -> string -> M unit) : M unit :=
  try_catch
    (console_log AuthFolder ;;
     '(version, isLatest) ← external fetchLatestBaileysVersion;
     console_log (UsingVersion version isLatest) ;;
     external useMultiFileAuthState ;;
     makeWASocket)
    (fun error => console_error (ConnectError error) ;; throw error).

(** *** index.ts, lines 11-79: [main] *)

Definition requiredEnvVars : list string :=
  ["GOOGLE_PROJECT_ID"; "GOOGLE_CLIENT_EMAIL"; "GOOGLE_PRIVATE_KEY";
   "SHEET_ID"; "BOT_PHONE_NUMBER"; "ALLOWED_CHATS"].

(** Lines 58-68. *)
Definition onMessage (from message : string) : M unit :=
  console_log (Processing from) ;;
  response ← (emit (HandleMessage message) ;;
              external (handleMessage message));
  sendMessage from response ;;
  console_log (ResponseSent (Js.take 50 response)).

(** Line 43: [!process.env[varName]]. *)
Definition unset (v : option string) : bool :=
  match v with
  | Some s => negb (Js.truthy s)
  | None => true
  end.

(** Line 43: the required keys that are missing from an environment. *)
Definition missing_in (e : gmap string string) : list string :=
  List.filter (fun varName => unset (e !! varName)) requiredEnvVars.

Definition main : M unit :=
  console_log Starting ;;
  v ← process_env "ALLOWED_CHATS";
  let allowedChats := Index.allowedChats v in
  (if (0 <? Z.of_nat (length allowedChats)) then
     console_log OnlyAuthorizedChats ;;
     console_log Rule ;;
     forEach allowedChats (fun chat =>
       console_log (ChatLabel (Js.endsWith chat "@g.us") chat))
   else
     console_log NoChatConfigured ;;
     throw no_chats_error) ;;
  missingVars ← read_env missing_in;
  (if (0 <? Z.of_nat (length missingVars)) then
     console_error MissingHeader ;;
     forEach missingVars (fun varName => console_error (MissingVar varName)) ;;
     console_error CreateEnvFile ;;
     process_exit 1
   else mret tt) ;;
  try_catch
    (new_WhatsAppBot ;;
     external new_MessageHandler ;;
     connect onMessage ;;
     console_log Started ;;
     console_log WaitingQr)
    (fun error => console_error (StartError error) ;; process_exit 1).

(** Line 105: [main()] is called and not awaited. *)
Definition program : M unit := detached main.

(** A process started with environment [e] in world [w]. *)
Definition boot (e : gmap string string) (w : World) : state :=
  mkState e w None [] [].

(** *** The running session

    After [main], the process only reacts: to events of the protocol
    session and to its own timers. The source keeps no connection state of
    its own; [ConnectionState] is the state of the specification, read off
    the [connection.update] events as section 4.2 of the specification
    describes the transitions, and carried next to the program state. *)

Inductive ConnectionState :=
  | Disconnected | Connecting | AwaitingPairing | Open | Closed.

(** What the event loop can hand to the process: an event of the socket, a
    timer that is due, or a turn of code outside these two files (the
    interpreter, a library) that leaves [process.env] with other contents.
    Line 116 of whatsapp.ts reads [process.env] at every message, so such a
    turn is visible to the program. *)
Inductive input :=
  | ConnectionUpdateEvent (u : ConnectionUpdate)
  | MessagesUpsertEvent (messages : list WAMessage)
  | TimerFires
  | EnvironmentChanges (e : gmap string string).

Record session := mkSession { observed : ConnectionState; st : state }.

Definition observe (c : ConnectionState) (u : ConnectionUpdate)
  : ConnectionState :=
  match connection u with
  | Some open => Open
  | Some close =>
      if shouldReconnect (statusCode_of u) then Closed else Disconnected
  | Some connecting => Connecting
  | None =>
      match qr u with
      | Some q => if Js.truthy q then AwaitingPairing else c
      | None => c
      end
  end.

(** The callback of lines 94-96 of whatsapp.ts, for the oldest pending
    timer. *)
Definition fire_timer (onMessage : string -> string -> M unit) : M unit :=
  fun s =>
    match timers s with
    | [] => (Normal tt, s)
    | _ :: rest =>
        detached (connect onMessage)
          (mkState (env s) (world s) (sock s) rest (out s))
    end.

(** The state a listener leaves behind, unless it ended the process. *)
Definition survive {A : Type} (r : completion A * state) : option state :=
  match r with
  | (Exited _, _) => None
  | (_, s) => Some s
  end.

(** One turn of the event loop. Listeners exist only on a socket, so
    nothing is delivered while [sock] is [null]. A listener is run here up
    to its end before the next input is taken; the real listeners are
    [async] and give way at each [await], so that the turns of two events may
    interleave. What is proved over [run] below is therefore kept to what
    holds of every synchronous stretch (the state of [sock], the count of
    timers and sockets, the addressee of a reply), and says nothing of the
    order of effects across events. *)
Definition deliver (i : input) (s : session) : option session :=
  match i with
  | ConnectionUpdateEvent u =>
      match sock (st s) with
      | None => Some s
      | Some _ =>
          s' ← survive (detached (connection_update u) (st s));
          Some (mkSession (observe (observed s) u) s')
      end
  | MessagesUpsertEvent messages =>
      match sock (st s) with
      | None => Some s
      | Some _ =>
          s' ← survive (detached (messages_upsert onMessage messages) (st s));
          Some (mkSession (observed s) s')
      end
  | TimerFires =>
      s' ← survive (fire_timer onMessage (st s));
      Some (mkSession
              (if (sockets_made (out (st s)) <? sockets_made (out s'))%nat
               then Connecting else observed s)
              s')
  | EnvironmentChanges e =>
      Some (mkSession (observed s)
              (mkState e (world (st s)) (sock (st s)) (timers (st s))
                 (out (st s))))
  end.

Fixpoint run (inputs : list input) (s : session) : option session :=
  match inputs with
  | [] => Some s
  | i :: rest => s' ← deliver i s; run rest s'
  end.

(** The session right after [main()]. *)
Definition start (e : gmap string string) (w : World) : option session :=
  s ← survive (program (boot e w));
  Some (mkSession
          (match sock s with Some _ => Connecting | None => Disconnected end)
          s).

Definition reachable (s : session) : Prop :=
  exists e w inputs, (s0 ← start e w; run inputs s0) = Some s.

End Program.

Arguments state World : clear implicits.
Arguments session World : clear implicits.
Arguments M World A : clear implicits.

(** The operations of the monad unfold once they are given a state. *)
Arguments emit {World} e st /.
Arguments console_log {World} l st /.
Arguments console_error {World} l st /.
Arguments M_bind {World} A B f m st /.
Arguments M_ret {World} A a st /.
Arguments throw {World A} e st /.
Arguments process_exit {World A} code st /.
Arguments try_catch {World A} body handler st /.
Arguments read_env {World A} f st /.
Arguments process_env {World} name st /.
Arguments this_sock {World} st /.
Arguments external {World A} f st /.
Arguments makeWASocket {World} st /.
Arguments setTimeout {World} ms st /.
Arguments new_WhatsAppBot {World} st /.

(** ** Concrete collaborators and inputs, for running the program *)

Module Sample.

(** A world in which every collaborator succeeds; the interpreter echoes. *)
Definition calm : Collaborators unit := {|
  loggedOut := 401;
  fetchLatestBaileysVersion := fun w => (inr ([2; 3000; 1], true), w);
  useMultiFileAuthState := fun w => (inr tt, w);
  sock_sendMessage := fun _ _ _ w => (inr tt, w);
  new_MessageHandler := fun w => (inr tt, w);
  handleMessage := fun t w => (inr ("echo " ++ t), w)
|}.

(** The interpreter throws on every text. *)
Definition throwing_handler : Collaborators unit := {|
  loggedOut := 401;
  fetchLatestBaileysVersion := fun w => (inr ([2; 3000; 1], true), w);
  useMultiFileAuthState := fun w => (inr tt, w);
  sock_sendMessage := fun _ _ _ w => (inr tt, w);
  new_MessageHandler := fun w => (inr tt, w);
  handleMessage := fun t w => (inl (JsError "sheet unavailable"), w)
|}.

(** The socket refuses every send. *)
Definition failing_transport : Collaborators unit := {|
  loggedOut := 401;
  fetchLatestBaileysVersion := fun w => (inr ([2; 3000; 1], true), w);
  useMultiFileAuthState := fun w => (inr tt, w);
  sock_sendMessage := fun _ _ _ w => (inl (JsError "Connection Closed"), w);
  new_MessageHandler := fun w => (inr tt, w);
  handleMessage := fun t w => (inr ("echo " ++ t), w)
|}.

Definition env_with (chats : option string) (sheet : option string)
  : gmap string string :=
  let base : gmap string string :=
    <["GOOGLE_PROJECT_ID" := "finance"]>
    (<["GOOGLE_CLIENT_EMAIL" := "bot@finance.iam"]>
    (<["GOOGLE_PRIVATE_KEY" := "key"]>
    (<["BOT_PHONE_NUMBER" := "5511999990000"]> ∅))) in
  let with_sheet := match sheet with
                    | Some v => <["SHEET_ID" := v]> base
                    | None => base
                    end in
  match chats with
  | Some v => <["ALLOWED_CHATS" := v]> with_sheet
  | None => with_sheet
  end.

(** A complete configuration whose allow-list is [{"1234@g.us"}]. *)
Definition complete_env : gmap string string :=
  env_with (Some "1234@g.us") (Some "sheet-1").

Definition text_from (from body : string) : WAMessage :=
  {| key := {| fromMe := false; remoteJid := from |};
     message_ := Some {| conversation := Some body;
                         extendedTextMessage := None |} |}.

Definition closed_with (code : Z) : ConnectionUpdate :=
  {| connection := Some close;
     lastDisconnect :=
       Some {| error := Some {| statusCode := Some code;
                                boom_message := Some "Connection Failure" |} |};
     qr := None |}.

Definition opened : ConnectionUpdate :=
  {| connection := Some open; lastDisconnect := None; qr := None |}.

End Sample.

(** ** Notions used in the statements below *)

(** The outcome of lines 119-133 for a sender: whether the loop body goes on
    to line 136, and what it prints on the way. *)
Definition passes (allowedChats : list string) (from : string) : bool :=
  if (0 <? Z.of_nat (length allowedChats)) then Js.includes allowedChats from
  else true.

Definition auth_lines (allowedChats : list string) (from : string)
  : list effect :=
  if (0 <? Z.of_nat (length allowedChats)) then [ConsoleLog (Authorized from)]
  else if Js.endsWith from "@g.us" then [ConsoleLog (GroupHint from)]
  else [ConsoleLog (ContactHint from)].

Section Pinned.

Context {World : Type} {collaborators : Collaborators World}.

(** The loop body as the specification describes the filter: the allow-list
    is a value computed earlier and handed in, instead of the array that
    line 116 derives from [process.env]. *)
Definition upsert_body_pinned (allowList : list string)
    (onMessage : string -> string -> M World unit) (msg : WAMessage)
  : M World flow :=
  if fromMe (key msg) then mret Continue
  else
    match message_ msg with
    | None => mret Continue
    | Some m => filter_and_route onMessage allowList (remoteJid (key msg)) m
    end.

End Pinned.

(** What lines 64-75 print for a pairing code. *)
Definition qr_lines (qr : option string) : list effect :=
  match qr with
  | Some q =>
      if Js.truthy q then
        [ConsoleLog ScanQr; QrcodeGenerate q; ConsoleLog QrBroken;
         ConsoleLog QrBar; ConsoleLog (QrText q); ConsoleLog QrBar;
         ConsoleLog QrSites; ConsoleLog QrThenScan]
      else []
  | None => []
  end.

(** A computation that leaves the bot's socket field as it found it. *)
Definition keeps_sock {World : Type} {A : Type} (m : M World A) : Prop :=
  forall s, sock (snd (m s)) = sock s.

(** The link between the specification's connection state and the socket
    field: without a socket the session is [Disconnected]. *)
Definition socket_or_disconnected {World : Type} (s : session World) : Prop :=
  sock (st s) = None -> observed s = Disconnected.

(** ** Notions for the properties of whole runs *)

(** Timers scheduled so far (whatsapp.ts 94). *)
Fixpoint timeouts_set (t : list effect) : nat :=
  match t with
  | [] => O
  | SetTimeout _ :: t' => S (timeouts_set t')
  | _ :: t' => timeouts_set t'
  end.

(** An effect that creates no socket, schedules no timer and is not the
    first line of [connect]. *)
Definition plain (e : effect) : bool :=
  match e with
  | MakeWASocket => false
  | SetTimeout _ => false
  | ConsoleLog AuthFolder => false
  | _ => true
  end.

(** What a step can change besides the outside world and the plain output:
    the environment, the socket field, the pending timers, and the numbers
    of sockets created, of entries into [connect] and of timers scheduled. *)
Definition shape {World : Type} (s : state World)
  : gmap string string * option nat * list Z * nat * nat * nat :=
  (env s, sock s, timers s, sockets_made (out s), connect_calls (out s),
   timeouts_set (out s)).

(** A computation that changes none of these. *)
Definition quiet {World : Type} {A : Type} (m : M World A) : Prop :=
  forall s, shape (snd (m s)) = shape s.

(** Whether the listener of whatsapp.ts 104-151 leaves at this message
    (line 122): the message is not from the bot, has a content, and its
    sender fails the check of lines 119-120. *)
Definition stops (allowedChats : list string) (msg : WAMessage) : bool :=
  match fromMe (key msg), message_ msg with
  | false, Some _ => negb (passes allowedChats (remoteJid (key msg)))
  | _, _ => false
  end.

(** The text of a message that lines 141-145 hand to [onMessage], if any. *)
Definition routed_text (msg : WAMessage) : list string :=
  match fromMe (key msg), message_ msg with
  | false, Some m =>
      if Js.truthy (messageText_of m) then [messageText_of m] else []
  | _, _ => []
  end.

(** The texts of a batch that reach [onMessage], in order: those of the
    messages ahead of the first one at which the listener leaves. *)
Fixpoint texts_reached (allowedChats : list string)
    (messages : list WAMessage) : list string :=
  match messages with
  | [] => []
  | msg :: rest =>
      if stops allowedChats msg then []
      else routed_text msg ++ texts_reached allowedChats rest
  end.

(** [p] occurs in [s]. *)
Definition occurs_in (p s : string) : Prop :=
  exists a b : string, s = (a ++ p ++ b)%string.

(** No comma among the characters of a string. *)
Fixpoint comma_free (s : string) : bool :=
  match s with
  | EmptyString => true
  | String c s' => (negb (Ascii.eqb c ",") && comma_free s')%bool
  end.

(** The first character, if any, is not white space. *)
Definition head_ok (s : string) : bool :=
  match s with
  | EmptyString => true
  | String c _ => negb (Js.is_white_space c)
  end.

(** [entries.join(',')]. *)
Fixpoint join_commas (entries : list string) : string :=
  match entries with
  | [] => ""
  | [e] => e
  | e :: rest => (e ++ "," ++ join_commas rest)%string
  end.

(** The lines of index.ts 30-35 for an allow-list. *)
Definition chat_lines (allowedChats : list string) : list effect :=
  [ConsoleLog OnlyAuthorizedChats; ConsoleLog Rule]
  ++ List.map (fun chat => ConsoleLog (ChatLabel (Js.endsWith chat "@g.us") chat))
       allowedChats.

(** The socket field holds the socket created last, if any was created. *)
Definition newest_socket {World : Type} (s : state World) : Prop :=
  sock s = match sockets_made (out s) with
           | O => None
           | S n => Some n
           end.

(** The two conditions a running session can be in: nothing was ever
    connected, or a socket is in place and every entry into [connect] but the
    first is accounted for by a timer. *)
Definition accounted {World : Type} (s : state World) : Prop :=
  (sock s = None /\ timers s = [] /\ connect_calls (out s) = O
   /\ timeouts_set (out s) = O /\ sockets_made (out s) = O)
  \/ (sock s <> None /\ newest_socket s
      /\ (connect_calls (out s) + length (timers s)
          = 1 + timeouts_set (out s))%nat).

Module Outage.

(** The version lookup fails; everything else succeeds. *)
Definition no_version : Collaborators unit := {|
  loggedOut := 401;
  fetchLatestBaileysVersion := fun w => (inl (JsError "fetch failed"), w);
  useMultiFileAuthState := fun w => (inr tt, w);
  sock_sendMessage := fun _ _ _ w => (inr tt, w);
  new_MessageHandler := fun w => (inr tt, w);
  handleMessage := fun t w => (inr ("echo " ++ t), w)
|}.

End Outage.

(** An input that leaves the value of [ALLOWED_CHATS] as [v]. *)
Definition leaves_allow_list (v : option string) (i : input) : Prop :=
  match i with
  | EnvironmentChanges e => e !! "ALLOWED_CHATS" = v
  | _ => True
  end.

(** The first and the last character of a string. *)
Definition first_char (s : string) : option ascii :=
  match s with
  | EmptyString => None
  | String c _ => Some c
  end.

Fixpoint last_char (s : string) : option ascii :=
  match s with
  | EmptyString => None
  | String c EmptyString => Some c
  | String _ s' => last_char s'
  end.

(** The code units that [String.prototype.trim] removes, among those a byte
    can hold: tab, line feed, vertical tab, form feed, carriage return, space
    and no-break space. *)
Definition white_space_codes : list nat := [9; 10; 11; 12; 13; 32; 160]%nat.

(** The close event of an update carries the status code [c]. *)
Definition closed_by (u : ConnectionUpdate) (c : Z) : Prop :=
  exists d b,
    lastDisconnect u = Some d /\ error d = Some b /\ statusCode b = Some c.

(** * Properties *)

(** Splits a conjunction into its parts, and nothing else. *)
Ltac conjuncts := repeat match goal with |- _ /\ _ => split end.

(** ** The primitives on sample values *)

Example split_empty : Js.split "," "" = [""].
Proof. reflexivity. Qed.

Example split_trailing : Js.split "," "a,,b," = ["a"; ""; "b"; ""].
Proof. reflexivity. Qed.

Example trim_both : Js.trim "  1234@g.us  " = "1234@g.us".
Proof. reflexivity. Qed.

Example allowedChats_sample :
  Index.allowedChats (Some " 1234@g.us , ,5511@s.whatsapp.net,")
  = ["1234@g.us"; "5511@s.whatsapp.net"].
Proof. reflexivity. Qed.

Example allowedChats_blank : Index.allowedChats (Some " , ") = [].
Proof. reflexivity. Qed.

Example endsWith_group : Js.endsWith "1234@g.us" "@g.us" = true.
Proof. reflexivity. Qed.

Example str_includes_mac : Js.str_includes "xx Bad MAC yy" "Bad MAC" = true.
Proof. reflexivity. Qed.

Example no_chats_is_not_noise :
  known_decrypt_noise (message no_chats_error) = false.
Proof. reflexivity. Qed.

(** ** The allow-list parse *)

Lemma keep_entries_filter (entries : list string) :
  keep_entries entries
  = List.filter (fun c => Js.truthy c) (List.map (fun c => Js.trim c) entries).
Proof.
  induction entries as [|e rest IH]; simpl; [reflexivity|].
  unfold blank. destruct (Js.truthy (Js.trim e)); simpl; congruence.
Qed.

Lemma startup_parse_is_spec (v : option string) :
  Index.allowedChats v = parse_allow_list v.
Proof.
  destruct v as [s|]; simpl; [|reflexivity].
  symmetry. apply keep_entries_filter.
Qed.

Lemma event_parse_is_spec (v : option string) :
  WhatsApp.allowedChats v = parse_allow_list v.
Proof.
  destruct v as [s|]; simpl; [|reflexivity].
  symmetry. apply keep_entries_filter.
Qed.

Lemma parses_agree (v : option string) :
  WhatsApp.allowedChats v = Index.allowedChats v.
Proof. now rewrite event_parse_is_spec, startup_parse_is_spec. Qed.

(** Every entry of a parsed allow-list is non-empty. *)
Lemma parse_entries_truthy (v : option string) (c : string) :
  In c (parse_allow_list v) -> Js.truthy c = true.
Proof.
  destruct v as [s|]; simpl; [|tauto].
  rewrite keep_entries_filter, filter_In. tauto.
Qed.

(** C10. For every value of ALLOWED_CHATS, set to any string or unset, the
    parse of index.ts (startup) and the parse of whatsapp.ts (per inbound
    event) give the same list of chat identifiers, which is the list the
    specification describes: split on commas, trim each entry, drop blank
    entries, empty when the variable is unset. *)
Theorem allow_list_parses_coincide (v : option string) :
  Index.allowedChats v = WhatsApp.allowedChats v
  /\ Index.allowedChats v = parse_allow_list v
  /\ WhatsApp.allowedChats v = parse_allow_list v.
Proof.
  split; [symmetry; apply parses_agree|].
  split; [apply startup_parse_is_spec | apply event_parse_is_spec].
Qed.

(** ** Startup *)

Section Startup.

Context {World : Type} {collaborators : Collaborators World}.

Lemma logged_logged (s : state World) (a b : list effect) :
  logged (logged s a) b = logged s (a ++ b).
Proof. unfold logged; simpl. now rewrite <- app_assoc. Qed.

(** With an allow-list that resolves to empty, [main] rejects with the
    error of line 40 after two lines of output. *)
Lemma main_without_chats (s : state World) :
  Index.allowedChats (env s !! "ALLOWED_CHATS") = [] ->
  main s = (Thrown no_chats_error,
            logged s [ConsoleLog Starting; ConsoleLog NoChatConfigured]).
Proof.
  intros H. unfold main, mbind, M_bind, console_log, emit, process_env, read_env.
  simpl. rewrite H. simpl. now rewrite logged_logged.
Qed.

(** X1. From every state whose allow-list resolves to the empty list, the
    rejection of [main] reaches the [unhandledRejection] listener, which
    prints it and returns: [process.exit] is not called and [connect] is not
    entered. *)
Lemma program_without_chats (s : state World) :
  Index.allowedChats (env s !! "ALLOWED_CHATS") = [] ->
  program s
  = (Normal tt,
     logged s [ConsoleLog Starting; ConsoleLog NoChatConfigured;
               ConsoleError (UnhandledLine no_chats_error)]).
Proof.
  intros H. unfold program, detached, try_catch. rewrite (main_without_chats s H).
  unfold unhandledRejection. rewrite no_chats_is_not_noise.
  unfold console_error, emit. now rewrite logged_logged.
Qed.

Lemma forEach_console_log {A : Type} (f : A -> line) (arr : list A)
    (s : state World) :
  forEach arr (fun x => console_log (f x)) s
  = (Normal tt, logged s (List.map (fun x => ConsoleLog (f x)) arr)).
Proof.
  revert s. induction arr as [|x rest IH]; intros s; simpl.
  - unfold mret, M_ret, logged. rewrite app_nil_r. now destruct s.
  - unfold mbind, M_bind, console_log, emit. rewrite IH.
    now rewrite logged_logged.
Qed.

Lemma forEach_console_error {A : Type} (f : A -> line) (arr : list A)
    (s : state World) :
  forEach arr (fun x => console_error (f x)) s
  = (Normal tt, logged s (List.map (fun x => ConsoleError (f x)) arr)).
Proof.
  revert s. induction arr as [|x rest IH]; intros s; simpl.
  - unfold mret, M_ret, logged. rewrite app_nil_r. now destruct s.
  - unfold mbind, M_bind, console_error, emit. rewrite IH.
    now rewrite logged_logged.
Qed.

Lemma reported_missing_app (a b : list effect) :
  reported_missing (a ++ b) = (reported_missing a ++ reported_missing b)%list.
Proof.
  induction a as [|x a IH]; simpl; [reflexivity|].
  destruct x as [l|l| | | | |]; try exact IH.
  destruct l; simpl; try exact IH. now rewrite IH.
Qed.

Lemma reported_missing_logs {A : Type} (f : A -> line) (arr : list A) :
  reported_missing (List.map (fun x => ConsoleLog (f x)) arr) = [].
Proof. induction arr; simpl; auto. Qed.

Lemma reported_missing_vars (ks : list string) :
  reported_missing (List.map (fun k => ConsoleError (MissingVar k)) ks) = ks.
Proof. induction ks; simpl; congruence. Qed.

Lemma connect_calls_app (a b : list effect) :
  (connect_calls (a ++ b) = connect_calls a + connect_calls b)%nat.
Proof.
  induction a as [|x a IH]; simpl; [reflexivity|].
  destruct x as [l|l| | | | |]; try exact IH.
  destruct l; simpl; try exact IH. now rewrite IH.
Qed.

Lemma connect_calls_chat_labels (chats : list string) :
  connect_calls
    (List.map (fun c => ConsoleLog (ChatLabel (Js.endsWith c "@g.us") c)) chats)
  = 0%nat.
Proof. induction chats; simpl; auto. Qed.

Lemma connect_calls_missing (ks : list string) :
  connect_calls (List.map (fun k => ConsoleError (MissingVar k)) ks) = 0%nat.
Proof. induction ks; simpl; auto. Qed.

(** X2. With an allow-list that resolves to a non-empty list and at least
    one required key missing, [main] prints every missing key, in the order
    of [requiredEnvVars], and calls [process.exit(1)] before [connect]. *)
Lemma main_reports_every_missing_key (s : state World) :
  Index.allowedChats (env s !! "ALLOWED_CHATS") <> [] ->
  missing_in (env s) <> [] ->
  fst (main s) = Exited 1
  /\ reported_missing (out (snd (main s)))
     = (reported_missing (out s) ++ missing_in (env s))%list
  /\ connect_calls (out (snd (main s))) = connect_calls (out s).
Proof.
  intros Hchats Hmiss.
  unfold main, mbind.
  cbn [M_bind console_log emit process_env read_env env logged].
  destruct (Index.allowedChats (env s !! "ALLOWED_CHATS")) as [|c cs] eqn:E;
    [congruence|].
  change (0 <? Z.of_nat (length (c :: cs))) with true.
  cbn [M_bind console_log emit env logged].
  rewrite forEach_console_log. cbn [env logged].
  destruct (missing_in (env s)) as [|k ks] eqn:F; [congruence|].
  change (0 <? Z.of_nat (length (k :: ks))) with true.
  cbn [M_bind console_error emit env logged].
  rewrite forEach_console_error. cbn [fst snd out logged process_exit].
  repeat rewrite reported_missing_app. repeat rewrite connect_calls_app.
  rewrite reported_missing_logs, reported_missing_vars.
  rewrite connect_calls_chat_labels, connect_calls_missing.
  cbn. repeat rewrite app_nil_r. repeat split; lia.
Qed.

End Startup.

(** C1. Started in a calm world with ALLOWED_CHATS=" , " and every other
    required key set, the allow-list resolves to the empty list and [connect]
    is never entered, but the process is not ended with code 1: [main]
    rejects, the [unhandledRejection] listener prints the error and returns,
    and [process.exit] is never called. *)
Theorem blank_allow_list_startup_outcome :
  let e := Sample.env_with (Some " , ") (Some "sheet-1") in
  let r := @program unit Sample.calm (boot e tt) in
  Index.allowedChats (e !! "ALLOWED_CHATS") = []
  /\ missing_in e = []
  /\ fst r = Normal tt
  /\ fst r <> Exited 1
  /\ out (snd r) = [ConsoleLog Starting; ConsoleLog NoChatConfigured;
                    ConsoleError (UnhandledLine no_chats_error)]
  /\ connect_calls (out (snd r)) = 0%nat
  /\ sockets_made (out (snd r)) = 0%nat.
Proof.
  cbv zeta. conjuncts; try (vm_compute; reflexivity).
  vm_compute. discriminate.
Qed.

(** C9. Started in a calm world with ALLOWED_CHATS and SHEET_ID both unset,
    two required keys are missing, yet no missing key is printed and the
    process is not ended with code 1: the throw of line 40 comes before the
    check of lines 43-50. With ALLOWED_CHATS set, the same missing SHEET_ID is
    printed and the process ends with code 1. *)
Theorem unset_allow_list_hides_missing_keys :
  let e := Sample.env_with None None in
  let r := @program unit Sample.calm (boot e tt) in
  let e' := Sample.env_with (Some "1234@g.us") None in
  let r' := @program unit Sample.calm (boot e' tt) in
  missing_in e = ["SHEET_ID"; "ALLOWED_CHATS"]
  /\ fst r = Normal tt
  /\ fst r <> Exited 1
  /\ reported_missing (out (snd r)) = []
  /\ missing_in e' = ["SHEET_ID"]
  /\ fst r' = Exited 1
  /\ reported_missing (out (snd r')) = ["SHEET_ID"].
Proof.
  cbv zeta. conjuncts; try (vm_compute; reflexivity).
  vm_compute. discriminate.
Qed.

(** ** Outbound delivery *)

Section Sending.

Context {World : Type} {collaborators : Collaborators World}.

Lemma send_without_socket (s : state World) (to body : string) :
  sock s = None -> sendMessage to body s = (Thrown not_connected_error, s).
Proof.
  intros H. unfold sendMessage, mbind. cbn [M_bind this_sock]. now rewrite H.
Qed.

Lemma reply_without_socket (s : state World) (to body : string)
    (quoted : option WAMessage) :
  sock s = None -> reply to body quoted s = (Thrown not_connected_error, s).
Proof.
  intros H. unfold reply, mbind. cbn [M_bind this_sock]. now rewrite H.
Qed.

(** With a socket, [sendMessage] hands the text to the socket and returns
    normally whatever the socket answers. *)
Lemma send_with_socket (s : state World) (to body : string) (n : nat) :
  sock s = Some n ->
  sendMessage to body s
  = match sock_sendMessage to body None (world s) with
    | (inr _, w) =>
        (Normal tt,
         mkState (env s) w (sock s) (timers s)
                 (out s ++ [SockSendMessage to body None]))
    | (inl e, w) =>
        (Normal tt,
         mkState (env s) w (sock s) (timers s)
                 (out s ++ [SockSendMessage to body None;
                            ConsoleError (SendError e)]))
    end.
Proof.
  intros H. unfold sendMessage, mbind. cbn [M_bind this_sock]. rewrite H.
  cbn [try_catch M_bind emit external logged world env sock timers out].
  destruct (sock_sendMessage to body None (world s)) as [[e|[]] w];
    cbn [console_error emit]; unfold logged;
    cbn [env world sock timers out]; rewrite ?H, <- ?app_assoc; reflexivity.
Qed.

(** C8. With a socket in place, a failure of the socket's send inside
    [sendMessage] is printed and not passed on: the call completes
    normally. The same failure inside [reply] is the outcome of the call,
    and nothing is printed. *)
Theorem send_swallows_reply_propagates (s : state World) (to body : string)
    (quoted : option WAMessage) (n : nat) (e e' : js_error) (w w' : World) :
  sock s = Some n ->
  sock_sendMessage to body None (world s) = (inl e, w) ->
  sock_sendMessage to body quoted (world s) = (inl e', w') ->
  sendMessage to body s
  = (Normal tt,
     mkState (env s) w (sock s) (timers s)
             (out s ++ [SockSendMessage to body None;
                        ConsoleError (SendError e)]))
  /\ reply to body quoted s
     = (Thrown e',
        mkState (env s) w' (sock s) (timers s)
                (out s ++ [SockSendMessage to body quoted])).
Proof.
  intros Hs Hsend Hreply. split.
  - rewrite (send_with_socket s to body n Hs). now rewrite Hsend.
  - unfold reply, mbind. cbn [M_bind this_sock]. rewrite Hs.
    cbn [M_bind emit external]. unfold logged.
    cbn [world env sock timers out]. rewrite Hreply, ?Hs. reflexivity.
Qed.

End Sending.

Lemma send_swallows_reply_propagates_witness :
  let s := mkState (Sample.complete_env) tt (Some 0%nat) [] [] in
  sock s = Some 0%nat
  /\ @sock_sendMessage unit Sample.failing_transport "1234@g.us" "hi" None (world s)
     = (inl (JsError "Connection Closed"), tt)
  /\ @sendMessage unit Sample.failing_transport "1234@g.us" "hi" s
     = (Normal tt,
        mkState (env s) tt (sock s) (timers s)
                (out s ++ [SockSendMessage "1234@g.us" "hi" None;
                           ConsoleError (SendError (JsError "Connection Closed"))]))
  /\ @reply unit Sample.failing_transport "1234@g.us" "hi" None s
     = (Thrown (JsError "Connection Closed"),
        mkState (env s) tt (sock s) (timers s)
                (out s ++ [SockSendMessage "1234@g.us" "hi" None])).
Proof.
  cbv zeta.
  split; [reflexivity|]. split; [reflexivity|].
  apply (@send_swallows_reply_propagates unit Sample.failing_transport
           (mkState (Sample.complete_env) tt (Some 0%nat) [] [])
           "1234@g.us" "hi" None 0%nat
           (JsError "Connection Closed") (JsError "Connection Closed") tt tt);
    reflexivity.
Defined.

(** ** The inbound filter and the router *)

Section Routing.

Context {World : Type} {collaborators : Collaborators World}.

Lemma includes_In (arr : list string) (x : string) :
  Js.includes arr x = true <-> In x arr.
Proof.
  unfold Js.includes. rewrite existsb_exists. split.
  - intros [y [Hy Heq]]. apply String.eqb_eq in Heq. now subst.
  - intros H. exists x. split; [assumption | apply String.eqb_refl].
Qed.

Lemma nonempty_length {A : Type} (l : list A) :
  l <> [] -> (0 <? Z.of_nat (length l)) = true.
Proof. destruct l; [congruence|]. intros _. reflexivity. Qed.

Lemma handler_calls_app (a b : list effect) :
  handler_calls (a ++ b) = (handler_calls a ++ handler_calls b)%list.
Proof.
  induction a as [|x a IH]; simpl; [reflexivity|].
  destruct x; simpl; now rewrite ?IH.
Qed.

Lemma replies_app (a b : list effect) :
  replies (a ++ b) = (replies a ++ replies b)%list.
Proof.
  induction a as [|x a IH]; simpl; [reflexivity|].
  destruct x; simpl; now rewrite ?IH.
Qed.

Lemma handler_calls_auth_lines (allowed : list string) (from : string) :
  handler_calls (auth_lines allowed from) = [].
Proof.
  unfold auth_lines.
  destruct (0 <? Z.of_nat (length allowed)); [reflexivity|].
  now destruct (Js.endsWith from "@g.us").
Qed.

Lemma replies_auth_lines (allowed : list string) (from : string) :
  replies (auth_lines allowed from) = [].
Proof.
  unfold auth_lines.
  destruct (0 <? Z.of_nat (length allowed)); [reflexivity|].
  now destruct (Js.endsWith from "@g.us").
Qed.

(** A sender the allow-list does not hold: the body prints nothing and
    leaves the listener (line 122). *)
Lemma route_rejected (om : string -> string -> M World unit)
    (allowed : list string) (from : string) (m : Message) (s : state World) :
  passes allowed from = false ->
  filter_and_route om allowed from m s = (Normal Return, s).
Proof.
  unfold passes, filter_and_route, mbind. intros H.
  destruct (0 <? Z.of_nat (length allowed)); [|discriminate].
  rewrite H. reflexivity.
Qed.

(** A sender that passes, with a text: the body prints, calls [om] inside
    the try of lines 144-148, and continues with the next message. *)
Lemma route_accepted (om : string -> string -> M World unit)
    (allowed : list string) (from : string) (m : Message) (s : state World) :
  passes allowed from = true ->
  Js.truthy (messageText_of m) = true ->
  filter_and_route om allowed from m s
  = match om from (messageText_of m)
            (logged s (auth_lines allowed from
                       ++ [ConsoleLog (MessageFrom from (messageText_of m))]))
    with
    | (Normal _, s') => (Normal Continue, s')
    | (Thrown e, s') =>
        (Normal Continue, logged s' [ConsoleError (ProcessError e)])
    | (Exited c, s') => (Exited c, s')
    end.
Proof.
  unfold passes, auth_lines, filter_and_route, mbind. intros Hp Ht.
  destruct (0 <? Z.of_nat (length allowed)).
  - rewrite Hp. cbn [negb M_bind console_log emit M_ret mret]. rewrite Ht.
    cbn [M_bind console_log console_error emit try_catch].
    rewrite logged_logged.
    destruct (om from (messageText_of m) _) as [[[]|e|c] s']; reflexivity.
  - destruct (Js.endsWith from "@g.us");
      cbn [negb M_bind console_log emit M_ret mret]; rewrite Ht;
      cbn [M_bind console_log console_error emit try_catch];
      rewrite logged_logged;
      destruct (om from (messageText_of m) _) as [[[]|e|c] s']; reflexivity.
Qed.

(** A sender that passes, without text: nothing more happens. *)
Lemma route_no_text (om : string -> string -> M World unit)
    (allowed : list string) (from : string) (m : Message) (s : state World) :
  passes allowed from = true ->
  Js.truthy (messageText_of m) = false ->
  filter_and_route om allowed from m s
  = (Normal Continue, logged s (auth_lines allowed from)).
Proof.
  unfold passes, auth_lines, filter_and_route, mbind. intros Hp Ht.
  destruct (0 <? Z.of_nat (length allowed)).
  - rewrite Hp. cbn [negb M_bind console_log emit M_ret mret]. now rewrite Ht.
  - destruct (Js.endsWith from "@g.us");
      cbn [negb M_bind console_log emit M_ret mret]; now rewrite Ht.
Qed.

Lemma upsert_body_unfold (om : string -> string -> M World unit)
    (msg : WAMessage) (m : Message) (s : state World) :
  fromMe (key msg) = false ->
  message_ msg = Some m ->
  upsert_body om msg s
  = filter_and_route om (WhatsApp.allowedChats (env s !! "ALLOWED_CHATS"))
      (remoteJid (key msg)) m s.
Proof.
  intros Hf Hm. unfold upsert_body. rewrite Hf, Hm. reflexivity.
Qed.

(** What [onMessage] does, by the answers of its collaborators. *)
Lemma onMessage_run (from body : string) (s : state World) :
  onMessage from body s
  = let s1 := logged s [ConsoleLog (Processing from); HandleMessage body] in
    match handleMessage body (world s) with
    | (inl e, w) =>
        (Thrown e, mkState (env s1) w (sock s1) (timers s1) (out s1))
    | (inr response, w) =>
        let s2 := mkState (env s1) w (sock s1) (timers s1) (out s1) in
        match sendMessage from response s2 with
        | (Normal _, s3) =>
            (Normal tt,
             logged s3 [ConsoleLog (ResponseSent (Js.take 50 response))])
        | (Thrown e, s3) => (Thrown e, s3)
        | (Exited c, s3) => (Exited c, s3)
        end
    end.
Proof.
  unfold onMessage, mbind.
  cbn [M_bind console_log emit external]. rewrite logged_logged.
  cbn [app world logged].
  destruct (handleMessage body (world s)) as [[e|response] w]; cbn zeta iota.
  - reflexivity.
  - cbn [M_bind]. destruct (sendMessage from response _) as [[[]|e|c] s3];
      reflexivity.
Qed.

(** [onMessage] calls the interpreter exactly once, with the text it was
    given, and never ends the process. *)
Lemma onMessage_calls_handler_once (from body : string) (s : state World) :
  handler_calls (out (snd (onMessage from body s)))
  = (handler_calls (out s) ++ [body])%list
  /\ (forall c, fst (onMessage from body s) <> Exited c).
Proof.
  rewrite onMessage_run. cbv zeta.
  destruct (handleMessage body (world s)) as [[e|response] w].
  - cbn [fst snd out logged]. rewrite handler_calls_app. split;
      [reflexivity | discriminate].
  - destruct (sock s) as [n|] eqn:Hs.
    + rewrite (send_with_socket _ from response n) by exact Hs.
      cbn [world env sock timers out logged].
      destruct (sock_sendMessage from response None w) as [[e|[]] w'];
        cbn [fst snd out logged];
        rewrite ?handler_calls_app; cbn [handler_calls app];
        rewrite ?app_nil_r; (split; [reflexivity | discriminate]).
    + rewrite send_without_socket by exact Hs.
      cbn [fst snd out logged]. rewrite handler_calls_app.
      split; [reflexivity | discriminate].
Qed.

Lemma passes_nonempty (allowed : list string) (from : string) :
  allowed <> [] -> passes allowed from = Js.includes allowed from.
Proof. intros H. unfold passes. now rewrite (nonempty_length allowed H). Qed.

Lemma passes_accepted (allowed : list string) (from : string) :
  allowed = [] \/ In from allowed -> passes allowed from = true.
Proof.
  intros [H|H]; [now subst|]. unfold passes.
  destruct (0 <? Z.of_nat (length allowed)); [|reflexivity].
  now apply includes_In.
Qed.

(** The early exit of line 122, for a batch: once a sender is rejected,
    the listener is over, whatever follows in the batch. *)
Lemma rejected_sender_ends_listener (om : string -> string -> M World unit)
    (msg : WAMessage) (m : Message) (rest : list WAMessage)
    (s : state World) :
  fromMe (key msg) = false ->
  message_ msg = Some m ->
  passes (WhatsApp.allowedChats (env s !! "ALLOWED_CHATS"))
         (remoteJid (key msg)) = false ->
  messages_upsert om (msg :: rest) s = (Normal tt, s).
Proof.
  intros Hf Hm Hp. cbn [messages_upsert]. unfold mbind. cbn [M_bind].
  rewrite (upsert_body_unfold om msg m s Hf Hm).
  now rewrite (route_rejected om _ _ m s Hp).
Qed.

(** X23. The loop body on one event that is not from self and carries a
    non-empty text, while the allow-list is non-empty. If the sender is not
    in the allow-list, the loop body leaves the state as it was (no call of
    the interpreter, no send, no output) and, delivered on its own, so does
    the whole listener. If the sender is in the allow-list, the loop body
    completes normally and the interpreter has been called exactly once
    more, with the text of the event. This is about an event the loop
    reaches; which events of a batch it reaches is another matter, see
    [rejected_sender_ends_listener]. *)
Theorem allow_list_decides (s : state World) (msg : WAMessage) (m : Message) :
  fromMe (key msg) = false ->
  message_ msg = Some m ->
  Js.truthy (messageText_of m) = true ->
  WhatsApp.allowedChats (env s !! "ALLOWED_CHATS") <> [] ->
  let allowList := WhatsApp.allowedChats (env s !! "ALLOWED_CHATS") in
  let r := upsert_body onMessage msg s in
  (~ In (remoteJid (key msg)) allowList ->
     r = (Normal Return, s)
     /\ messages_upsert onMessage [msg] s = (Normal tt, s))
  /\ (In (remoteJid (key msg)) allowList ->
      fst r = Normal Continue
      /\ handler_calls (out (snd r))
         = (handler_calls (out s) ++ [messageText_of m])%list
      /\ messages_upsert onMessage [msg] s = (Normal tt, snd r)).
Proof.
  intros Hf Hm Ht Hne allowList r. split.
  - intros Hout.
    assert (Hp : passes allowList (remoteJid (key msg)) = false).
    { unfold allowList. rewrite (passes_nonempty _ _ Hne).
      destruct (Js.includes _ _) eqn:E; [|reflexivity].
      apply includes_In in E. contradiction. }
    split.
    + subst r. rewrite (upsert_body_unfold onMessage msg m s Hf Hm).
      now apply route_rejected.
    + now apply (rejected_sender_ends_listener onMessage msg m [] s Hf Hm).
  - intros Hin.
    assert (Hr : fst r = Normal Continue
                 /\ handler_calls (out (snd r))
                    = (handler_calls (out s) ++ [messageText_of m])%list).
    { subst r. rewrite (upsert_body_unfold onMessage msg m s Hf Hm).
      fold allowList.
      rewrite (route_accepted onMessage allowList _ m s
                 (passes_accepted _ _ (or_intror Hin)) Ht).
      match goal with
      | |- context [onMessage ?a ?b ?s1] =>
          pose proof (onMessage_calls_handler_once a b s1) as [Hcalls Hexit]
      end.
      destruct (onMessage _ _ _) as [[[]|e|c] s'];
        cbn [fst snd out logged] in *.
      - split; [reflexivity|]. rewrite Hcalls, handler_calls_app.
        rewrite handler_calls_app, handler_calls_auth_lines.
        cbn [handler_calls app]. now rewrite app_nil_r.
      - split; [reflexivity|]. rewrite handler_calls_app, Hcalls.
        rewrite !handler_calls_app, handler_calls_auth_lines.
        cbn [handler_calls app]. now rewrite !app_nil_r.
      - exfalso. now apply (Hexit c). }
    destruct Hr as [Hfst Hcalls]. split; [exact Hfst|].
    split; [exact Hcalls|].
    cbn [messages_upsert]. unfold mbind. cbn [M_bind]. fold r.
    destruct r as [c s']. cbn [fst snd] in *. now subst c.
Qed.

(** C7. An accepted inbound message (not from self, with a text, from a
    sender that passes the allow-list check) whose interpreter call throws:
    the loop body completes normally, its output ends with the logged
    error, nothing was handed to the socket, and the listener goes on with
    the rest of the batch from the state the failed message left. *)
Theorem handler_failure_is_contained (s : state World) (msg : WAMessage)
    (m : Message) (rest : list WAMessage) (e : js_error) (w' : World) :
  fromMe (key msg) = false ->
  message_ msg = Some m ->
  Js.truthy (messageText_of m) = true ->
  (WhatsApp.allowedChats (env s !! "ALLOWED_CHATS") = []
   \/ In (remoteJid (key msg))
         (WhatsApp.allowedChats (env s !! "ALLOWED_CHATS"))) ->
  handleMessage (messageText_of m) (world s) = (inl e, w') ->
  let from := remoteJid (key msg) in
  let body := messageText_of m in
  let s' :=
    mkState (env s) w' (sock s) (timers s)
      (out s
       ++ auth_lines (WhatsApp.allowedChats (env s !! "ALLOWED_CHATS")) from
       ++ [ConsoleLog (MessageFrom from body); ConsoleLog (Processing from);
           HandleMessage body; ConsoleError (ProcessError e)]) in
  upsert_body onMessage msg s = (Normal Continue, s')
  /\ messages_upsert onMessage (msg :: rest) s
     = messages_upsert onMessage rest s'
  /\ replies (out s') = replies (out s).
Proof.
  intros Hf Hm Ht Hacc Hthrow from body s'.
  assert (Hbody : upsert_body onMessage msg s = (Normal Continue, s')).
  { rewrite (upsert_body_unfold onMessage msg m s Hf Hm).
    rewrite (route_accepted onMessage _ _ m s (passes_accepted _ _ Hacc) Ht).
    rewrite onMessage_run. cbv zeta. cbn [world logged].
    rewrite Hthrow. subst s'. unfold logged. cbn [env sock timers out].
    rewrite <- !app_assoc. reflexivity. }
  split; [exact Hbody|]. split.
  - cbn [messages_upsert]. unfold mbind. cbn [M_bind]. now rewrite Hbody.
  - subst s'. cbn [out]. rewrite !replies_app, replies_auth_lines.
    cbn [replies app]. now rewrite !app_nil_r.
Qed.

End Routing.

Lemma allow_list_decides_witness :
  let s := mkState Sample.complete_env tt (Some 0%nat) [] [] in
  let member := Sample.text_from "1234@g.us" "hello" in
  let stranger := Sample.text_from "5555@g.us" "hello" in
  WhatsApp.allowedChats (env s !! "ALLOWED_CHATS") = ["1234@g.us"]
  /\ handler_calls
       (out (snd (upsert_body (@onMessage unit Sample.calm) member s)))
     = ["hello"]
  /\ upsert_body (@onMessage unit Sample.calm) stranger s = (Normal Return, s)
  /\ messages_upsert (@onMessage unit Sample.calm) [stranger] s = (Normal tt, s).
Proof.
  cbv zeta.
  assert (Hlist : WhatsApp.allowedChats
                    (Sample.complete_env !! "ALLOWED_CHATS") = ["1234@g.us"])
    by (vm_compute; reflexivity).
  assert (Hne : WhatsApp.allowedChats
                  (Sample.complete_env !! "ALLOWED_CHATS") <> [])
    by (rewrite Hlist; discriminate).
  split; [exact Hlist|]. split.
  - destruct (@allow_list_decides unit Sample.calm
                (mkState Sample.complete_env tt (Some 0%nat) [] [])
                (Sample.text_from "1234@g.us" "hello")
                {| conversation := Some "hello"; extendedTextMessage := None |}
                eq_refl eq_refl eq_refl Hne) as [_ Hacc].
    apply Hacc. cbn [env Sample.text_from key remoteJid].
    rewrite Hlist. left. reflexivity.
  - destruct (@allow_list_decides unit Sample.calm
                (mkState Sample.complete_env tt (Some 0%nat) [] [])
                (Sample.text_from "5555@g.us" "hello")
                {| conversation := Some "hello"; extendedTextMessage := None |}
                eq_refl eq_refl eq_refl Hne) as [Hrej _].
    apply Hrej. cbn [env Sample.text_from key remoteJid].
    rewrite Hlist. intros [H|[]]. discriminate H.
Defined.

Lemma handler_failure_is_contained_witness :
  let s := mkState Sample.complete_env tt (Some 0%nat) [] [] in
  let msg := Sample.text_from "1234@g.us" "hello" in
  let next := Sample.text_from "1234@g.us" "again" in
  let s' :=
    mkState Sample.complete_env tt (Some 0%nat) []
      [ConsoleLog (Authorized "1234@g.us");
       ConsoleLog (MessageFrom "1234@g.us" "hello");
       ConsoleLog (Processing "1234@g.us"); HandleMessage "hello";
       ConsoleError (ProcessError (JsError "sheet unavailable"))] in
  @handleMessage unit Sample.throwing_handler "hello" (world s)
  = (inl (JsError "sheet unavailable"), tt)
  /\ upsert_body (@onMessage unit Sample.throwing_handler) msg s
     = (Normal Continue, s')
  /\ messages_upsert (@onMessage unit Sample.throwing_handler) [msg; next] s
     = messages_upsert (@onMessage unit Sample.throwing_handler) [next] s'
  /\ replies (out s') = [].
Proof.
  cbv zeta. split; [reflexivity|].
  apply (@handler_failure_is_contained unit Sample.throwing_handler
           (mkState Sample.complete_env tt (Some 0%nat) [] [])
           (Sample.text_from "1234@g.us" "hello")
           {| conversation := Some "hello"; extendedTextMessage := None |}
           [Sample.text_from "1234@g.us" "again"]
           (JsError "sheet unavailable") tt
           eq_refl eq_refl eq_refl);
    [right; vm_compute; left; reflexivity | reflexivity].
Defined.

(** C3. After a startup with allow-list ["1234@g.us"], a batch that holds a
    message from "5555@g.us" followed by a message from "1234@g.us" is
    abandoned at the first message: the listener returns at line 122 and the
    second message is neither filtered nor processed. Delivered alone, or
    ahead of the other one, the same second message reaches the
    interpreter. *)
Theorem rejected_sender_drops_rest_of_batch :
  let s := snd (@program unit Sample.calm (boot Sample.complete_env tt)) in
  let stranger := Sample.text_from "5555@g.us" "x" in
  let member := Sample.text_from "1234@g.us" "hello" in
  let handled batch :=
    handler_calls
      (out (snd (messages_upsert (@onMessage unit Sample.calm) batch s))) in
  WhatsApp.allowedChats (env s !! "ALLOWED_CHATS") = ["1234@g.us"]
  /\ handler_calls (out s) = []
  /\ handled [member] = ["hello"]
  /\ handled [member; stranger] = ["hello"]
  /\ handled [stranger; member] = []
  /\ messages_upsert (@onMessage unit Sample.calm) [stranger; member] s
     = (Normal tt, s).
Proof.
  cbv zeta. conjuncts; vm_compute; reflexivity.
Qed.

(** C6. After a startup with allow-list ["1234@g.us"], take the event from
    "1234@g.us" with the text "hello": it is not from self, its text is not
    empty, the allow-list is not empty and holds its sender. Delivered on
    its own it is accepted: the interpreter is called once, with "hello",
    and the answer goes back to the sender. Delivered in one batch behind
    an event from "5555@g.us" it is not: the listener has returned at
    line 122 before reaching it, the interpreter is not called and nothing
    is sent. *)
Theorem allowed_sender_unheard_behind_rejected :
  let s := snd (@program unit Sample.calm (boot Sample.complete_env tt)) in
  let stranger := Sample.text_from "5555@g.us" "x" in
  let member := Sample.text_from "1234@g.us" "hello" in
  let allowList := WhatsApp.allowedChats (env s !! "ALLOWED_CHATS") in
  let alone :=
    snd (messages_upsert (@onMessage unit Sample.calm) [member] s) in
  let behind :=
    snd (messages_upsert (@onMessage unit Sample.calm) [stranger; member] s) in
  fromMe (key member) = false
  /\ option_map messageText_of (message_ member) = Some "hello"
  /\ allowList = ["1234@g.us"]
  /\ In (remoteJid (key member)) allowList
  /\ handler_calls (out s) = []
  /\ replies (out s) = []
  /\ handler_calls (out alone) = ["hello"]
  /\ replies (out alone) = [("1234@g.us", "echo hello")]
  /\ handler_calls (out behind) = []
  /\ replies (out behind) = [].
Proof.
  cbv zeta. conjuncts; try (vm_compute; reflexivity).
  vm_compute. left. reflexivity.
Qed.

(** ** The allow-list over time *)

(** C4, as stated, fails. The process started with allow-list
    ["1234@g.us"]; by the time a message from "5555@g.us" arrives,
    ALLOWED_CHATS reads "5555@g.us". Under the allow-list computed at startup
    the message is rejected; the listener accepts it and calls the
    interpreter. *)
Lemma filter_follows_the_environment :
  let startup := Index.allowedChats (Sample.complete_env !! "ALLOWED_CHATS") in
  let s := mkState (<["ALLOWED_CHATS" := "5555@g.us"]> Sample.complete_env)
                   tt (Some 0%nat) [] [] in
  let msg := Sample.text_from "5555@g.us" "hi" in
  startup = ["1234@g.us"]
  /\ upsert_body_pinned startup (@onMessage unit Sample.calm) msg s
     = (Normal Return, s)
  /\ fst (upsert_body (@onMessage unit Sample.calm) msg s) = Normal Continue
  /\ handler_calls (out (snd (upsert_body (@onMessage unit Sample.calm) msg s)))
     = ["hi"]
  /\ upsert_body (@onMessage unit Sample.calm) msg s
     <> upsert_body_pinned startup (@onMessage unit Sample.calm) msg s.
Proof.
  cbv zeta. conjuncts; try (vm_compute; reflexivity).
  vm_compute. discriminate.
Qed.

Section OverTime.

Context {World : Type} {collaborators : Collaborators World}.

(** C4, amended. The allow-list is derived from [process.env] at startup
    and again for every inbound message. The decision of the filter for a
    message is the decision under the list parsed from the value that
    ALLOWED_CHATS has when the message arrives; it is the decision under
    the list computed at startup whenever that value is the one the
    variable had at startup. *)
Theorem filter_reads_environment_per_event
    (startup : gmap string string) (s : state World)
    (om : string -> string -> M World unit) (msg : WAMessage) :
  upsert_body om msg s
  = upsert_body_pinned (WhatsApp.allowedChats (env s !! "ALLOWED_CHATS"))
      om msg s
  /\ (env s !! "ALLOWED_CHATS" = startup !! "ALLOWED_CHATS" ->
      upsert_body om msg s
      = upsert_body_pinned (Index.allowedChats (startup !! "ALLOWED_CHATS"))
          om msg s).
Proof.
  assert (H : upsert_body om msg s
              = upsert_body_pinned
                  (WhatsApp.allowedChats (env s !! "ALLOWED_CHATS")) om msg s).
  { unfold upsert_body, upsert_body_pinned.
    destruct (fromMe (key msg)); [reflexivity|].
    destruct (message_ msg); reflexivity. }
  split; [exact H|]. intros Heq. rewrite H, Heq. now rewrite parses_agree.
Qed.

End OverTime.

Lemma filter_reads_environment_per_event_witness :
  let s := mkState Sample.complete_env tt (Some 0%nat) [] [ConsoleLog Connected] in
  let msg := Sample.text_from "5555@g.us" "hi" in
  env s !! "ALLOWED_CHATS" = Sample.complete_env !! "ALLOWED_CHATS"
  /\ upsert_body (@onMessage unit Sample.calm) msg s
     = upsert_body_pinned
         (Index.allowedChats (Sample.complete_env !! "ALLOWED_CHATS"))
         (@onMessage unit Sample.calm) msg s.
Proof.
  cbv zeta. split; [reflexivity|].
  apply (@filter_reads_environment_per_event unit Sample.complete_env
           (mkState Sample.complete_env tt (Some 0%nat) [] [ConsoleLog Connected])
           (@onMessage unit Sample.calm)
           (Sample.text_from "5555@g.us" "hi")).
  reflexivity.
Defined.

(** ** The connection listener and the reconnect timer *)

Section Reconnect.

Context {World : Type} {collaborators : Collaborators World}.

Lemma shouldReconnect_false (code : option Z) :
  shouldReconnect code = false <-> code = Some loggedOut.
Proof.
  unfold shouldReconnect. destruct code as [c|].
  - rewrite negb_false_iff, Z.eqb_eq. split; congruence.
  - split; discriminate.
Qed.

Lemma shouldReconnect_true (code : option Z) :
  code <> Some loggedOut -> shouldReconnect code = true.
Proof.
  intros H. destruct (shouldReconnect code) eqn:E; [reflexivity|].
  now apply shouldReconnect_false in E.
Qed.

Lemma qr_block (u : ConnectionUpdate) (s : state World) :
  match qr u with
  | Some q =>
      if Js.truthy q then
        console_log ScanQr ;;
        emit (QrcodeGenerate q) ;;
        console_log QrBroken ;;
        console_log QrBar ;;
        console_log (QrText q) ;;
        console_log QrBar ;;
        console_log QrSites ;;
        console_log QrThenScan
      else mret tt
  | None => mret tt
  end s
  = (Normal tt, logged s (qr_lines (qr u))).
Proof.
  assert (Hnil : logged s [] = s)
    by (unfold logged; rewrite app_nil_r; now destruct s).
  unfold qr_lines. destruct (qr u) as [q|]; [|now rewrite Hnil].
  destruct (Js.truthy q); [|now rewrite Hnil].
  unfold mbind. cbn [M_bind console_log emit]. now rewrite !logged_logged.
Qed.

(** The listener on a [close] update, in full. *)
Lemma connection_update_close (u : ConnectionUpdate) (s : state World) :
  connection u = Some close ->
  connection_update u s
  = (Normal tt,
     if shouldReconnect (statusCode_of u) then
       mkState (env s) (world s) (sock s) (timers s ++ [5000])
         (out s ++ [ConsoleLog (ConnectionStatus (Some close))]
          ++ qr_lines (qr u)
          ++ [ConsoleLog ConnectionClosed;
              ConsoleLog (ClosedCode (statusCode_of u));
              ConsoleLog (ClosedReason (reason_of u));
              ConsoleLog (ClosedReconnect true);
              ConsoleLog WaitingReconnect; SetTimeout 5000])
     else
       mkState (env s) (world s) (sock s) (timers s)
         (out s ++ [ConsoleLog (ConnectionStatus (Some close))]
          ++ qr_lines (qr u)
          ++ [ConsoleLog ConnectionClosed;
              ConsoleLog (ClosedCode (statusCode_of u));
              ConsoleLog (ClosedReason (reason_of u));
              ConsoleLog (ClosedReconnect false);
              ConsoleLog SessionEnded])).
Proof.
  intros Hc. unfold connection_update, mbind.
  cbn [M_bind console_log emit]. rewrite qr_block. rewrite Hc.
  cbn [M_bind M_ret mret console_log emit].
  destruct (shouldReconnect (statusCode_of u));
    cbn [M_bind console_log emit setTimeout]; unfold logged;
    cbn [env world sock timers out]; rewrite <- !app_assoc; reflexivity.
Qed.

Lemma connect_calls_qr_lines (q : option string) :
  connect_calls (qr_lines q) = 0%nat.
Proof.
  unfold qr_lines. destruct q as [q|]; [|reflexivity].
  now destruct (Js.truthy q).
Qed.

Lemma sockets_made_app (a b : list effect) :
  (sockets_made (a ++ b) = sockets_made a + sockets_made b)%nat.
Proof.
  induction a as [|x a IH]; simpl; [reflexivity|].
  destruct x; simpl; now rewrite ?IH.
Qed.

(** [connect], by the answers of its collaborators. *)
Lemma connect_run (om : string -> string -> M World unit) (s : state World) :
  connect om s
  = match fetchLatestBaileysVersion (world s) with
    | (inl e, w) =>
        (Thrown e,
         mkState (env s) w (sock s) (timers s)
           (out s ++ [ConsoleLog AuthFolder; ConsoleError (ConnectError e)]))
    | (inr (version, isLatest), w) =>
        match useMultiFileAuthState w with
        | (inl e, w') =>
            (Thrown e,
             mkState (env s) w' (sock s) (timers s)
               (out s ++ [ConsoleLog AuthFolder;
                          ConsoleLog (UsingVersion version isLatest);
                          ConsoleError (ConnectError e)]))
        | (inr _, w') =>
            (Normal tt,
             mkState (env s) w' (Some (sockets_made (out s))) (timers s)
               (out s ++ [ConsoleLog AuthFolder;
                          ConsoleLog (UsingVersion version isLatest);
                          MakeWASocket]))
        end
    end.
Proof.
  unfold connect, mbind.
  cbn [try_catch M_bind console_log emit external]. unfold logged.
  cbn [env world sock timers out].
  destruct (fetchLatestBaileysVersion (world s)) as [[e|[version isLatest]] w].
  - cbn [M_bind console_error emit throw]. unfold logged.
    cbn [env world sock timers out]. now rewrite <- app_assoc.
  - cbn [M_bind console_log emit external]. unfold logged.
    cbn [env world sock timers out].
    destruct (useMultiFileAuthState w) as [[e|[]] w'].
    + cbn [M_bind console_error emit throw]. unfold logged.
      cbn [env world sock timers out]. now rewrite <- !app_assoc.
    + cbn [makeWASocket env world sock timers out].
      rewrite <- !app_assoc. cbn [app].
      rewrite sockets_made_app. cbn [sockets_made].
      now rewrite Nat.add_0_r.
Qed.

Lemma unhandledRejection_run (e : js_error) (s : state World) :
  unhandledRejection e s
  = (Normal tt,
     if known_decrypt_noise (message e) then s
     else logged s [ConsoleError (UnhandledLine e)]).
Proof.
  unfold unhandledRejection. now destruct (known_decrypt_noise (message e)).
Qed.

(** [connect], run as the timer runs it: it starts, exactly once, with the
    line of whatsapp.ts 31, leaves the timers alone, and either creates one
    socket or leaves the socket field and the socket count untouched. *)
Lemma detached_connect (om : string -> string -> M World unit)
    (s : state World) :
  let r := detached (connect om) s in
  fst r = Normal tt
  /\ connect_calls (out (snd r)) = S (connect_calls (out s))
  /\ timers (snd r) = timers s
  /\ ((sock (snd r) = sock s
       /\ sockets_made (out (snd r)) = sockets_made (out s))
      \/ (sock (snd r) <> None
          /\ (sockets_made (out s) < sockets_made (out (snd r)))%nat)).
Proof.
  cbv zeta. unfold detached. cbn [try_catch]. rewrite connect_run.
  destruct (fetchLatestBaileysVersion (world s)) as [[e|[version isLatest]] w];
    [|destruct (useMultiFileAuthState w) as [[e|[]] w']];
    rewrite ?unhandledRejection_run;
    try destruct (known_decrypt_noise (message e));
    cbn [fst snd out timers sock logged];
    rewrite ?connect_calls_app, ?sockets_made_app;
    cbn [connect_calls sockets_made];
    (split; [reflexivity|]); (split; [lia|]); (split; [reflexivity|]);
    first [ left; split; [reflexivity | lia]
          | right; split; [discriminate | lia] ].
Qed.

Lemma statusCode_of_closed_by (u : ConnectionUpdate) (c : Z) :
  statusCode_of u = Some c <-> closed_by u c.
Proof.
  unfold statusCode_of, closed_by. split.
  - destruct (lastDisconnect u) as [d|]; [|discriminate].
    destruct (error d) as [b|] eqn:Hb; [|discriminate].
    intros H. exists d, b. now rewrite Hb.
  - intros (d & b & Hd & Hb & Hs). now rewrite Hd, Hb.
Qed.

(** C5. On every [close] update the listener returns and does not itself
    enter [connect]. The reason is classified as terminal exactly when the
    update carries a [lastDisconnect] whose error has the logged-out status
    code. In that case the listener prints that it will not reconnect and
    that the session has ended, and schedules nothing: the pending timers are
    those of before, and with none pending a turn of the timer does nothing.
    In every other case (another code, an error without a code, no error or
    no [lastDisconnect] at all) it prints that it will reconnect and
    schedules exactly one timer, with the fixed delay of 5000 ms; that
    timer, when it fires, enters [connect] exactly once and schedules nothing
    further. *)
Theorem reconnect_policy (s : state World) (u : ConnectionUpdate)
    (om : string -> string -> M World unit) :
  connection u = Some close ->
  let r := connection_update u s in
  fst r = Normal tt
  /\ connect_calls (out (snd r)) = connect_calls (out s)
  /\ (shouldReconnect (statusCode_of u) = false <-> closed_by u loggedOut)
  /\ (closed_by u loggedOut ->
      timers (snd r) = timers s
      /\ (exists printed,
             out (snd r)
             = (out s ++ printed
                ++ [ConsoleLog (ClosedCode (Some loggedOut));
                    ConsoleLog (ClosedReason (reason_of u));
                    ConsoleLog (ClosedReconnect false);
                    ConsoleLog SessionEnded])%list)
      /\ (timers s = [] -> fire_timer om (snd r) = (Normal tt, snd r)))
  /\ (~ closed_by u loggedOut ->
      timers (snd r) = (timers s ++ [5000])%list
      /\ (exists printed,
             out (snd r)
             = (out s ++ printed
                ++ [ConsoleLog (ClosedReason (reason_of u));
                    ConsoleLog (ClosedReconnect true);
                    ConsoleLog WaitingReconnect; SetTimeout 5000])%list)
      /\ (timers s = [] ->
          let r' := fire_timer om (snd r) in
          fst r' = Normal tt
          /\ timers (snd r') = []
          /\ connect_calls (out (snd r')) = S (connect_calls (out s)))).
Proof.
  intros Hc r. subst r. rewrite (connection_update_close u s Hc).
  split; [reflexivity|]. cbn [fst snd]. split.
  { destruct (shouldReconnect (statusCode_of u)); cbn [out];
      rewrite !connect_calls_app, connect_calls_qr_lines;
      cbn [connect_calls]; lia. }
  split.
  { rewrite shouldReconnect_false. apply statusCode_of_closed_by. }
  split.
  - intros Hout. apply statusCode_of_closed_by in Hout.
    pose proof Hout as Hfalse. apply shouldReconnect_false in Hfalse.
    rewrite Hfalse, Hout. cbn [timers out]. split; [reflexivity|]. split.
    + exists ([ConsoleLog (ConnectionStatus (Some close))]
              ++ qr_lines (qr u) ++ [ConsoleLog ConnectionClosed])%list.
      now rewrite <- !app_assoc.
    + intros Hnone. unfold fire_timer. cbn [timers]. now rewrite Hnone.
  - intros Hother.
    assert (Hne : statusCode_of u <> Some loggedOut)
      by (intros H; apply Hother; now apply statusCode_of_closed_by).
    rewrite (shouldReconnect_true _ Hne). cbn [timers out].
    split; [reflexivity|]. split.
    + exists ([ConsoleLog (ConnectionStatus (Some close))]
              ++ qr_lines (qr u)
              ++ [ConsoleLog ConnectionClosed;
                  ConsoleLog (ClosedCode (statusCode_of u))])%list.
      now rewrite <- !app_assoc.
    + intros Hnone. cbv zeta.
      unfold fire_timer. cbn [timers env world sock out]. rewrite Hnone.
      cbn [app].
      match goal with
      | |- context [detached (connect om) ?s1] =>
          pose proof (detached_connect om s1) as [Hn [Hcalls [Ht _]]]
      end.
      cbn [timers out] in Hcalls, Ht.
      split; [exact Hn|]. split; [exact Ht|]. rewrite Hcalls.
      rewrite connect_calls_app. cbn [connect_calls].
      rewrite connect_calls_app, connect_calls_qr_lines.
      cbn [connect_calls]. lia.
Qed.

End Reconnect.

(** The policy on three close events: one with code 428, one without a
    [lastDisconnect], one with the logged-out code 401. *)
Lemma reconnect_policy_witness :
  let s := mkState Sample.complete_env tt (Some 0%nat) [] [] in
  let lost := Sample.closed_with 428 in
  let bare := {| connection := Some close; lastDisconnect := None;
                 qr := None |} in
  let out401 := Sample.closed_with 401 in
  let after u := snd (@connection_update unit Sample.calm u s) in
  let fired u :=
    @fire_timer unit Sample.calm (@onMessage unit Sample.calm) (after u) in
  @loggedOut unit Sample.calm = 401
  /\ (timers (after lost) = [5000]
      /\ fst (fired lost) = Normal tt
      /\ timers (snd (fired lost)) = []
      /\ connect_calls (out (snd (fired lost))) = 1%nat)
  /\ (timers (after bare) = [5000]
      /\ fst (fired bare) = Normal tt
      /\ timers (snd (fired bare)) = []
      /\ connect_calls (out (snd (fired bare))) = 1%nat)
  /\ (timers (after out401) = []
      /\ fired out401 = (Normal tt, after out401)
      /\ connect_calls (out (after out401)) = 0%nat).
Proof.
  cbv zeta.
  assert (Hlost : ~ closed_by (Sample.closed_with 428)
                      (@loggedOut unit Sample.calm)).
  { intros (d & b & Hd & Hb & Hs). cbn in Hd. inversion Hd; subst d.
    cbn in Hb. inversion Hb; subst b. discriminate Hs. }
  assert (Hbare : ~ closed_by {| connection := Some close;
                                 lastDisconnect := None; qr := None |}
                      (@loggedOut unit Sample.calm)).
  { intros (d & b & Hd & _). discriminate Hd. }
  assert (Hout : closed_by (Sample.closed_with 401)
                   (@loggedOut unit Sample.calm)).
  { eexists _, _. repeat split. }
  split; [reflexivity|]. split; [|split].
  - destruct (@reconnect_policy unit Sample.calm
                (mkState Sample.complete_env tt (Some 0%nat) [] [])
                (Sample.closed_with 428) (@onMessage unit Sample.calm)
                eq_refl)
      as (_ & _ & _ & _ & Hretry).
    destruct (Hretry Hlost) as (Ht & _ & Hfire).
    split; [exact Ht|]. exact (Hfire eq_refl).
  - destruct (@reconnect_policy unit Sample.calm
                (mkState Sample.complete_env tt (Some 0%nat) [] [])
                {| connection := Some close; lastDisconnect := None;
                   qr := None |}
                (@onMessage unit Sample.calm) eq_refl)
      as (_ & _ & _ & _ & Hretry).
    destruct (Hretry Hbare) as (Ht & _ & Hfire).
    split; [exact Ht|]. exact (Hfire eq_refl).
  - destruct (@reconnect_policy unit Sample.calm
                (mkState Sample.complete_env tt (Some 0%nat) [] [])
                (Sample.closed_with 401) (@onMessage unit Sample.calm)
                eq_refl)
      as (_ & Hcalls & _ & Hend & _).
    destruct (Hend Hout) as (Ht & _ & Hfire).
    split; [exact Ht|]. split; [exact (Hfire eq_refl)|exact Hcalls].
Defined.

(** ** The session: where a send is attempted *)

Section Session.

Context {World : Type} {collaborators : Collaborators World}.

Lemma keeps_ret {A : Type} (a : A) : keeps_sock (mret a : M World A).
Proof. intros s. reflexivity. Qed.

Lemma keeps_bind {A B : Type} (m : M World A) (f : A -> M World B) :
  keeps_sock m -> (forall a, keeps_sock (f a)) -> keeps_sock (m ≫= f).
Proof.
  intros Hm Hf s. unfold mbind. cbn [M_bind]. specialize (Hm s).
  destruct (m s) as [[a|e|c] s']; cbn [snd] in *; [|assumption..].
  now rewrite Hf.
Qed.

Lemma keeps_try {A : Type} (m : M World A) (h : js_error -> M World A) :
  keeps_sock m -> (forall e, keeps_sock (h e)) -> keeps_sock (try_catch m h).
Proof.
  intros Hm Hh s. cbn [try_catch]. specialize (Hm s).
  destruct (m s) as [[a|e|c] s']; cbn [snd] in *; [assumption| |assumption].
  now rewrite Hh.
Qed.

Lemma keeps_emit (e : effect) : keeps_sock (emit e : M World unit).
Proof. intros s. reflexivity. Qed.

Lemma keeps_console_log (l : line) : keeps_sock (console_log l : M World unit).
Proof. intros s. reflexivity. Qed.

Lemma keeps_console_error (l : line) :
  keeps_sock (console_error l : M World unit).
Proof. intros s. reflexivity. Qed.

Lemma keeps_throw {A : Type} (e : js_error) : keeps_sock (throw e : M World A).
Proof. intros s. reflexivity. Qed.

Lemma keeps_read_env {A : Type} (f : gmap string string -> A) :
  keeps_sock (read_env f : M World A).
Proof. intros s. reflexivity. Qed.

Lemma keeps_this_sock : keeps_sock (this_sock : M World (option nat)).
Proof. intros s. reflexivity. Qed.

Lemma keeps_setTimeout (ms : Z) : keeps_sock (setTimeout ms : M World unit).
Proof. intros s. reflexivity. Qed.

Lemma keeps_external {A : Type} (f : World -> (js_error + A) * World) :
  keeps_sock (external f).
Proof.
  intros s. cbn [external]. now destruct (f (world s)) as [[e|a] w].
Qed.

Create HintDb keeps.

#[local] Hint Resolve keeps_ret keeps_emit keeps_console_log
  keeps_console_error keeps_throw keeps_read_env keeps_this_sock
  keeps_setTimeout keeps_external : keeps.

(** Peels binds, try blocks and case distinctions off a [keeps_sock] goal. *)
Ltac keeps :=
  repeat first
    [ progress auto with keeps
    | apply keeps_bind; [|intros ?]
    | apply keeps_try; [|intros ?]
    | match goal with
      | |- keeps_sock (match ?x with _ => _ end) => destruct x
      end ].

Lemma keeps_sendMessage (to body : string) : keeps_sock (sendMessage to body).
Proof. unfold sendMessage. keeps. Qed.

Lemma keeps_onMessage (from body : string) : keeps_sock (onMessage from body).
Proof. unfold onMessage. keeps. Qed.

Lemma keeps_upsert_body (msg : WAMessage) :
  keeps_sock (upsert_body onMessage msg).
Proof.
  unfold upsert_body, filter_and_route, process_env. keeps.
Qed.

Lemma keeps_messages_upsert (messages : list WAMessage) :
  keeps_sock (messages_upsert onMessage messages).
Proof.
  induction messages as [|msg rest IH]; cbn [messages_upsert]; keeps.
  apply keeps_upsert_body.
Qed.

Lemma keeps_connection_update (u : ConnectionUpdate) :
  keeps_sock (connection_update u).
Proof. unfold connection_update. keeps. Qed.

Lemma keeps_detached (m : M World unit) :
  keeps_sock m -> keeps_sock (detached m).
Proof.
  intros H. unfold detached. apply keeps_try; [assumption|].
  intros e. unfold unhandledRejection. keeps.
Qed.

Lemma survive_snd {A : Type} (r : completion A * state World)
    (s : state World) :
  survive r = Some s -> s = snd r.
Proof. destruct r as [[a|e|c] s']; cbn; congruence. Qed.

Lemma deliver_invariant (i : input) (s s' : session World) :
  socket_or_disconnected s -> deliver i s = Some s' ->
  socket_or_disconnected s'.
Proof.
  unfold socket_or_disconnected. intros Inv H.
  destruct i as [u|messages| |e]; cbn [deliver] in H.
  - destruct (sock (st s)) as [n|] eqn:Hs; [|inversion H; subst; intros _; exact (Inv eq_refl)].
    destruct (survive _) as [s1|] eqn:E; cbn [mbind option_bind] in H;
      [|discriminate].
    inversion H; subst; clear H. cbn [st observed].
    apply survive_snd in E. subst s1.
    rewrite (keeps_detached _ (keeps_connection_update u)), Hs.
    discriminate.
  - destruct (sock (st s)) as [n|] eqn:Hs; [|inversion H; subst; intros _; exact (Inv eq_refl)].
    destruct (survive _) as [s1|] eqn:E; cbn [mbind option_bind] in H;
      [|discriminate].
    inversion H; subst; clear H. cbn [st observed].
    apply survive_snd in E. subst s1.
    rewrite (keeps_detached _ (keeps_messages_upsert messages)), Hs.
    discriminate.
  - destruct (survive _) as [s1|] eqn:E; cbn [mbind option_bind] in H;
      [|discriminate].
    inversion H; subst; clear H. cbn [st observed].
    apply survive_snd in E. subst s1. unfold fire_timer.
    destruct (timers (st s)) as [|ms rest].
    + cbn [snd]. rewrite Nat.ltb_irrefl. exact Inv.
    + match goal with
      | |- context [detached (connect onMessage) ?s1] =>
          pose proof (detached_connect onMessage s1) as (_ & _ & _ & Hsock)
      end.
      cbn [sock out] in Hsock. destruct Hsock as [[Hk Hm]|[Hk Hm]].
      * rewrite Hk, Hm, Nat.ltb_irrefl. exact Inv.
      * intros Hnone. contradiction.
  - inversion H; subst; clear H. cbn [st observed sock]. exact Inv.
Qed.

Lemma run_invariant (inputs : list input) (s s' : session World) :
  socket_or_disconnected s -> run inputs s = Some s' ->
  socket_or_disconnected s'.
Proof.
  revert s. induction inputs as [|i rest IH]; intros s Inv H;
    cbn [run] in H.
  - inversion H; subst; exact Inv.
  - destruct (deliver i s) as [s1|] eqn:E; cbn in H; [|discriminate].
    exact (IH s1 (deliver_invariant i s s1 Inv E) H).
Qed.

Lemma start_invariant (e : gmap string string) (w : World)
    (s : session World) :
  start e w = Some s -> socket_or_disconnected s.
Proof.
  unfold start, socket_or_disconnected. intros H.
  destruct (survive _) as [s1|]; cbn in H; [|discriminate].
  inversion H; subst; clear H. cbn [st observed]. intros Hn. now rewrite Hn.
Qed.

Lemma reachable_invariant (s : session World) :
  reachable s -> socket_or_disconnected s.
Proof.
  intros (e & w & inputs & H).
  destruct (start e w) as [s0|] eqn:E; cbn in H; [|discriminate].
  exact (run_invariant inputs s0 s (start_invariant e w s0 E) H).
Qed.

(** C2, amended. In every reachable session, [sendMessage] fails with the
    not-connected error exactly when no socket has been created: the state
    is untouched, nothing is handed to a socket, and the session is then
    [Disconnected]. Whenever a socket exists the text is handed to it and the
    call completes normally; every [Open] session has a socket. *)
Theorem send_guard_is_the_socket (s : session World) (to body : string) :
  reachable s ->
  (sock (st s) = None ->
     observed s = Disconnected
     /\ sendMessage to body (st s) = (Thrown not_connected_error, st s))
  /\ (sock (st s) <> None ->
      fst (sendMessage to body (st s)) = Normal tt
      /\ replies (out (snd (sendMessage to body (st s))))
         = (replies (out (st s)) ++ [(to, body)])%list)
  /\ (observed s = Open -> sock (st s) <> None).
Proof.
  intros Hr. pose proof (reachable_invariant s Hr) as Inv.
  unfold socket_or_disconnected in Inv. split; [|split].
  - intros Hn. split; [exact (Inv Hn)|].
    now apply send_without_socket.
  - intros Hs. destruct (sock (st s)) as [n|] eqn:E; [|congruence].
    rewrite (send_with_socket (st s) to body n E).
    destruct (sock_sendMessage to body None (world (st s))) as [[e|[]] w];
      cbn [fst snd out]; rewrite replies_app; cbn [replies];
      (split; reflexivity).
  - intros Ho Hn. rewrite (Inv Hn) in Ho. discriminate.
Qed.

End Session.

(** C2, as stated, fails. A session started with a complete configuration
    receives a [close] update with a retryable code: the connection state is
    [Closed], not [Open], and the socket of the closed session is still in
    the [sock] field. A send in that session does not fail with the
    not-connected error: the text is handed to the socket and the call
    completes normally. The same holds right after startup, while the state
    is [Connecting]. *)
Lemma send_attempted_while_closed :
  let started := @start unit Sample.calm Sample.complete_env tt in
  let closed :=
    s0 ← started;
    @run unit Sample.calm [ConnectionUpdateEvent (Sample.closed_with 428)] s0 in
  let send (s : session unit) :=
    @sendMessage unit Sample.calm "1234@g.us" "hi" (st s) in
  option_map observed closed = Some Closed
  /\ option_map (fun s => fst (send s)) closed = Some (Normal tt)
  /\ option_map (fun s => replies (out (snd (send s)))) closed
     = Some [("1234@g.us", "hi")]
  /\ option_map observed started = Some Connecting
  /\ option_map (fun s => fst (send s)) started = Some (Normal tt)
  /\ option_map (fun s => replies (out (snd (send s)))) started
     = Some [("1234@g.us", "hi")].
Proof.
  cbv zeta. conjuncts; vm_compute; reflexivity.
Qed.

Lemma send_guard_is_the_socket_witness :
  let s := mkSession Connecting
             (snd (@program unit Sample.calm (boot Sample.complete_env tt))) in
  let r := @sendMessage unit Sample.calm "1234@g.us" "hi" (st s) in
  @reachable unit Sample.calm s
  /\ sock (st s) <> None
  /\ fst r = Normal tt
  /\ replies (out (snd r)) = (replies (out (st s)) ++ [("1234@g.us", "hi")])%list.
Proof.
  cbv zeta.
  assert (Hr : @reachable unit Sample.calm
                 (mkSession Connecting
                    (snd (@program unit Sample.calm
                            (boot Sample.complete_env tt))))).
  { exists Sample.complete_env, tt, []. vm_compute. reflexivity. }
  assert (Hs : sock (snd (@program unit Sample.calm
                            (boot Sample.complete_env tt))) <> None).
  { vm_compute. discriminate. }
  split; [exact Hr|]. split; [exact Hs|].
  destruct (@send_guard_is_the_socket unit Sample.calm _ "1234@g.us" "hi" Hr)
    as (_ & Hsend & _).
  exact (Hsend Hs).
Defined.

(** ** The startup lemmas on sample configurations *)

Lemma program_without_chats_witness :
  let s := @boot unit (Sample.env_with (Some " , ") (Some "sheet-1")) tt in
  Index.allowedChats (env s !! "ALLOWED_CHATS") = []
  /\ @program unit Sample.calm s
     = (Normal tt,
        logged s [ConsoleLog Starting; ConsoleLog NoChatConfigured;
                  ConsoleError (UnhandledLine no_chats_error)]).
Proof.
  cbv zeta.
  assert (H : Index.allowedChats
                (env (@boot unit (Sample.env_with (Some " , ") (Some "sheet-1")) tt)
                 !! "ALLOWED_CHATS") = [])
    by (vm_compute; reflexivity).
  split; [exact H|].
  exact (@program_without_chats unit Sample.calm _ H).
Defined.

Lemma main_reports_every_missing_key_witness :
  let s := @boot unit (<["GOOGLE_PROJECT_ID" := ""]>
                         (Sample.env_with (Some "1234@g.us") None)) tt in
  Index.allowedChats (env s !! "ALLOWED_CHATS") <> []
  /\ missing_in (env s) = ["GOOGLE_PROJECT_ID"; "SHEET_ID"]
  /\ fst (@main unit Sample.calm s) = Exited 1
  /\ reported_missing (out (snd (@main unit Sample.calm s)))
     = ["GOOGLE_PROJECT_ID"; "SHEET_ID"]
  /\ connect_calls (out (snd (@main unit Sample.calm s))) = 0%nat.
Proof.
  cbv zeta.
  assert (Hc : Index.allowedChats
                 (env (@boot unit (<["GOOGLE_PROJECT_ID" := ""]>
                                     (Sample.env_with (Some "1234@g.us") None)) tt)
                  !! "ALLOWED_CHATS") <> [])
    by (vm_compute; discriminate).
  assert (Hm : missing_in
                 (env (@boot unit (<["GOOGLE_PROJECT_ID" := ""]>
                                     (Sample.env_with (Some "1234@g.us") None)) tt))
               = ["GOOGLE_PROJECT_ID"; "SHEET_ID"])
    by (vm_compute; reflexivity).
  split; [exact Hc|]. split; [exact Hm|].
  destruct (@main_reports_every_missing_key unit Sample.calm _ Hc
              ltac:(rewrite Hm; discriminate)) as (He & Hr & Hn).
  split; [exact He|]. split; [|exact Hn].
  rewrite Hr, Hm. reflexivity.
Defined.

(** * Further properties of the code *)

(** ** Startup with a usable configuration *)

Section StartupOutcomes.

Context {World : Type} {collaborators : Collaborators World}.

Lemma logged_nil (s : state World) : logged s [] = s.
Proof. unfold logged. rewrite app_nil_r. now destruct s. Qed.

Lemma sockets_made_chat_lines (chats : list string) :
  sockets_made (chat_lines chats) = 0%nat.
Proof. unfold chat_lines. cbn. induction chats; cbn; auto. Qed.

Lemma connect_calls_chat_lines (chats : list string) :
  connect_calls (chat_lines chats) = 0%nat.
Proof. unfold chat_lines. cbn. induction chats; cbn; auto. Qed.

(** [main] with a non-empty allow-list and no required key missing, by the
    answers of [new MessageHandler()] and of [connect]. *)
Lemma main_with_config (s : state World) :
  Index.allowedChats (env s !! "ALLOWED_CHATS") <> [] ->
  missing_in (env s) = [] ->
  main s
  = let lines :=
      (out s ++ [ConsoleLog Starting]
       ++ chat_lines (Index.allowedChats (env s !! "ALLOWED_CHATS")))%list in
    match new_MessageHandler (world s) with
    | (inl e, w) =>
        (Exited 1,
         mkState (env s) w None (timers s)
           (lines ++ [ConsoleError (StartError e)]))
    | (inr _, w) =>
        match connect onMessage (mkState (env s) w None (timers s) lines) with
        | (Normal _, s2) =>
            (Normal tt, logged s2 [ConsoleLog Started; ConsoleLog WaitingQr])
        | (Thrown e, s2) =>
            (Exited 1, logged s2 [ConsoleError (StartError e)])
        | (Exited c, s2) => (Exited c, s2)
        end
    end.
Proof.
  intros Hchats Hmiss. unfold main, mbind.
  cbn [M_bind console_log emit process_env read_env env logged].
  destruct (Index.allowedChats (env s !! "ALLOWED_CHATS")) as [|c cs] eqn:E;
    [congruence|].
  change (0 <? Z.of_nat (length (c :: cs))) with true.
  cbn [M_bind console_log emit env logged].
  rewrite forEach_console_log. cbn [env logged]. rewrite Hmiss.
  change (0 <? Z.of_nat (length (@nil string))) with false.
  unfold mret. cbn [M_ret M_bind try_catch new_WhatsAppBot external].
  rewrite !logged_logged. unfold chat_lines, logged.
  cbn [app env world sock timers out].
  destruct (new_MessageHandler (world s)) as [[e|[]] w].
  - cbn [console_error emit M_bind process_exit]. unfold logged.
    cbn [env world sock timers out]. reflexivity.
  - cbn [M_bind env world sock timers out].
    destruct (connect onMessage _) as [[[]|e|c0] s2];
      cbn [M_bind console_log console_error emit process_exit];
      rewrite ?logged_logged; reflexivity.
Qed.

Lemma main_exits_on_missing_keys (s : state World) :
  Index.allowedChats (env s !! "ALLOWED_CHATS") <> [] ->
  missing_in (env s) <> [] ->
  fst (main s) = Exited 1.
Proof.
  intros Hchats Hmiss. unfold main, mbind.
  cbn [M_bind console_log emit process_env read_env env logged].
  destruct (Index.allowedChats (env s !! "ALLOWED_CHATS")) as [|c cs] eqn:E;
    [congruence|].
  change (0 <? Z.of_nat (length (c :: cs))) with true.
  cbn [M_bind console_log emit env logged].
  rewrite forEach_console_log. cbn [env logged].
  destruct (missing_in (env s)) as [|k ks] eqn:F; [congruence|].
  change (0 <? Z.of_nat (length (k :: ks))) with true.
  cbn [M_bind console_error emit env logged].
  rewrite forEach_console_error. reflexivity.
Qed.

(** X3. What [connect] can do: it never ends the process; when it completes
    normally it has created exactly one socket and stored it in [sock]; when
    it throws, the last thing it printed is that error, no socket was
    created and [sock] still holds what it held before. Either way it was
    entered once, and the environment and the pending timers are as they
    were. *)
Theorem connect_outcome (om : string -> string -> M World unit)
    (s : state World) :
  match connect om s with
  | (Normal _, s') =>
      sock s' = Some (sockets_made (out s))
      /\ sockets_made (out s') = S (sockets_made (out s))
  | (Thrown e, s') =>
      sock s' = sock s
      /\ sockets_made (out s') = sockets_made (out s)
      /\ exists printed, out s' = (printed ++ [ConsoleError (ConnectError e)])%list
  | (Exited _, _) => False
  end
  /\ connect_calls (out (snd (connect om s))) = S (connect_calls (out s))
  /\ env (snd (connect om s)) = env s
  /\ timers (snd (connect om s)) = timers s.
Proof.
  rewrite connect_run.
  destruct (fetchLatestBaileysVersion (world s)) as [[e|[version isLatest]] w];
    [|destruct (useMultiFileAuthState w) as [[e|[]] w']];
    cbn [fst snd env world sock timers out];
    rewrite ?connect_calls_app, ?sockets_made_app;
    cbn [connect_calls sockets_made].
  - split; [|split; [lia|split; reflexivity]].
    split; [reflexivity|]. split; [lia|].
    exists (out s ++ [ConsoleLog AuthFolder])%list. now rewrite <- app_assoc.
  - split; [|split; [lia|split; reflexivity]].
    split; [reflexivity|]. split; [lia|].
    exists (out s ++ [ConsoleLog AuthFolder;
                      ConsoleLog (UsingVersion version isLatest)])%list.
    now rewrite <- app_assoc.
  - split; [|split; [lia|split; reflexivity]].
    split; [reflexivity|]. lia.
Qed.

(** X4. How [main] can end. It rejects only with the error of line 40, and
    only when the allow-list resolves to the empty list. Whenever it ends
    the process, the code is 1 and the allow-list was not empty. When it
    completes normally, the allow-list is not empty, no required key is
    missing, [connect] was entered exactly once, exactly one socket was
    created and it is the one in [sock]. *)
Theorem main_outcome (s : state World) :
  match main s with
  | (Thrown e, _) =>
      e = no_chats_error /\ Index.allowedChats (env s !! "ALLOWED_CHATS") = []
  | (Exited c, _) =>
      c = 1 /\ Index.allowedChats (env s !! "ALLOWED_CHATS") <> []
  | (Normal _, s') =>
      Index.allowedChats (env s !! "ALLOWED_CHATS") <> []
      /\ missing_in (env s) = []
      /\ connect_calls (out s') = S (connect_calls (out s))
      /\ sockets_made (out s') = S (sockets_made (out s))
      /\ sock s' = Some (sockets_made (out s))
  end.
Proof.
  destruct (Index.allowedChats (env s !! "ALLOWED_CHATS")) as [|c cs] eqn:E.
  - rewrite (main_without_chats s E). split; reflexivity.
  - assert (Hne : Index.allowedChats (env s !! "ALLOWED_CHATS") <> [])
      by (rewrite E; discriminate).
    destruct (missing_in (env s)) as [|k ks] eqn:F.
    + rewrite (main_with_config s Hne F). cbv zeta. rewrite E.
      destruct (new_MessageHandler (world s)) as [[e|[]] w].
      * split; [reflexivity | discriminate].
      * rewrite connect_run. cbn [world].
        destruct (fetchLatestBaileysVersion w) as [[e|[version isLatest]] w1];
          [|destruct (useMultiFileAuthState w1) as [[e|[]] w2]];
          try (split; [reflexivity | discriminate]).
        cbn [logged env world sock timers out].
        rewrite !connect_calls_app, !sockets_made_app.
        rewrite connect_calls_chat_lines, sockets_made_chat_lines.
        cbn [connect_calls sockets_made].
        split; [discriminate|]. split; [reflexivity|].
        split; [lia|]. split; [lia|]. f_equal. lia.
    + assert (Hm : missing_in (env s) <> []) by (rewrite F; discriminate).
      pose proof (main_exits_on_missing_keys s Hne Hm) as Hx.
      destruct (main s) as [[[]|e|c0] s']; cbn [fst] in Hx;
        try discriminate.
      inversion Hx. split; [reflexivity | discriminate].
Qed.

(** X5. With a usable configuration, a failure to fetch the protocol version
    ends the startup with code 1 and without a socket; the error is printed
    twice, by [connect] (whatsapp.ts 154) and by [main] (index.ts 76). *)
Theorem version_failure_ends_startup (s : state World) (e : js_error)
    (w w' : World) :
  Index.allowedChats (env s !! "ALLOWED_CHATS") <> [] ->
  missing_in (env s) = [] ->
  new_MessageHandler (world s) = (inr tt, w) ->
  fetchLatestBaileysVersion w = (inl e, w') ->
  main s
  = (Exited 1,
     mkState (env s) w' None (timers s)
       (out s ++ [ConsoleLog Starting]
        ++ chat_lines (Index.allowedChats (env s !! "ALLOWED_CHATS"))
        ++ [ConsoleLog AuthFolder; ConsoleError (ConnectError e);
            ConsoleError (StartError e)])).
Proof.
  intros Hne Hmiss Hnew Hfetch. rewrite (main_with_config s Hne Hmiss).
  cbv zeta. rewrite Hnew, connect_run. cbn [world]. rewrite Hfetch.
  unfold logged. cbn [env world sock timers out].
  now rewrite <- !app_assoc.
Qed.

End StartupOutcomes.

(** ** Steps that leave the shape of the state alone *)

Section Quiet.

Context {World : Type} {collaborators : Collaborators World}.

Lemma timeouts_set_app (a b : list effect) :
  (timeouts_set (a ++ b) = timeouts_set a + timeouts_set b)%nat.
Proof.
  induction a as [|x a IH]; simpl; [reflexivity|].
  destruct x; simpl; now rewrite ?IH.
Qed.

Lemma shape_logged_plain (s : state World) (e : effect) :
  plain e = true -> shape (logged s [e]) = shape s.
Proof.
  intros H. unfold shape, logged. cbn [env sock timers out].
  rewrite sockets_made_app, connect_calls_app, timeouts_set_app.
  destruct e as [l|l| | | | |]; try discriminate H;
    try (destruct l; try discriminate H);
    cbn [sockets_made connect_calls timeouts_set];
    now rewrite !Nat.add_0_r.
Qed.

Lemma quiet_ret {A : Type} (a : A) : quiet (mret a : M World A).
Proof. intros s. reflexivity. Qed.

Lemma quiet_bind {A B : Type} (m : M World A) (f : A -> M World B) :
  quiet m -> (forall a, quiet (f a)) -> quiet (m ≫= f).
Proof.
  intros Hm Hf s. unfold mbind. cbn [M_bind]. specialize (Hm s).
  destruct (m s) as [[a|e|c] s']; cbn [snd] in *; [|assumption..].
  now rewrite Hf.
Qed.

Lemma quiet_try {A : Type} (m : M World A) (h : js_error -> M World A) :
  quiet m -> (forall e, quiet (h e)) -> quiet (try_catch m h).
Proof.
  intros Hm Hh s. cbn [try_catch]. specialize (Hm s).
  destruct (m s) as [[a|e|c] s']; cbn [snd] in *; [assumption| |assumption].
  now rewrite Hh.
Qed.

Lemma quiet_emit (e : effect) : plain e = true -> quiet (emit e : M World unit).
Proof. intros H s. cbn [emit snd]. now apply shape_logged_plain. Qed.

Lemma quiet_console_log (l : line) :
  plain (ConsoleLog l) = true -> quiet (console_log l : M World unit).
Proof. intros H s. cbn [console_log emit snd]. now apply shape_logged_plain. Qed.

Lemma quiet_console_error (l : line) :
  quiet (console_error l : M World unit).
Proof. intros s. cbn [console_error emit snd]. now apply shape_logged_plain. Qed.

Lemma quiet_throw {A : Type} (e : js_error) : quiet (throw e : M World A).
Proof. intros s. reflexivity. Qed.

Lemma quiet_read_env {A : Type} (f : gmap string string -> A) :
  quiet (read_env f : M World A).
Proof. intros s. reflexivity. Qed.

Lemma quiet_this_sock : quiet (this_sock : M World (option nat)).
Proof. intros s. reflexivity. Qed.

Lemma quiet_external {A : Type} (f : World -> (js_error + A) * World) :
  quiet (external f).
Proof.
  intros s. cbn [external]. now destruct (f (world s)) as [[e|a] w].
Qed.

Create HintDb quiet.

#[local] Hint Resolve quiet_ret quiet_console_error quiet_throw quiet_read_env
  quiet_this_sock quiet_external : quiet.

(** Peels binds, try blocks, case distinctions and plain output off a
    [quiet] goal. *)
Ltac quiet :=
  repeat first
    [ progress auto with quiet
    | apply quiet_emit; reflexivity
    | apply quiet_console_log; reflexivity
    | apply quiet_bind; [|intros ?]
    | apply quiet_try; [|intros ?]
    | match goal with
      | |- quiet (match ?x with _ => _ end) => destruct x
      end ].

Lemma quiet_sendMessage (to body : string) : quiet (sendMessage to body).
Proof. unfold sendMessage. quiet. Qed.

Lemma quiet_reply (to body : string) (quoted : option WAMessage) :
  quiet (reply to body quoted).
Proof. unfold reply. quiet. Qed.

Lemma quiet_onMessage (from body : string) : quiet (onMessage from body).
Proof. unfold onMessage. quiet. Qed.

Lemma quiet_upsert_body (msg : WAMessage) : quiet (upsert_body onMessage msg).
Proof. unfold upsert_body, filter_and_route, process_env. quiet. Qed.

Lemma quiet_messages_upsert (messages : list WAMessage) :
  quiet (messages_upsert onMessage messages).
Proof.
  induction messages as [|msg rest IH]; cbn [messages_upsert]; quiet.
  apply quiet_upsert_body.
Qed.

Lemma quiet_unhandledRejection (e : js_error) :
  quiet (unhandledRejection e : M World unit).
Proof. unfold unhandledRejection. quiet. Qed.

Lemma quiet_detached (m : M World unit) : quiet m -> quiet (detached m).
Proof.
  intros H. unfold detached. apply quiet_try; [assumption|].
  apply quiet_unhandledRejection.
Qed.

End Quiet.

(** ** The message listener on whole batches *)

Section Batches.

Context {World : Type} {collaborators : Collaborators World}.

Lemma shape_env (s s' : state World) : shape s' = shape s -> env s' = env s.
Proof. unfold shape. congruence. Qed.

Lemma shape_trans (a b c : state World) :
  shape b = shape a -> shape c = shape b -> shape c = shape a.
Proof. congruence. Qed.

Lemma take_prefix (n : nat) (s : string) :
  exists rest : string, s = (Js.take n s ++ rest)%string.
Proof.
  revert s. induction n as [|n IH]; intros s.
  - exists s. now destruct s.
  - destruct s as [|c s']; [now exists ""|].
    destruct (IH s') as [rest Hrest]. exists rest.
    change (String c s' = String c (Js.take n s' ++ rest)%string).
    f_equal. exact Hrest.
Qed.

Lemma take_length (n : nat) (s : string) :
  (String.length (Js.take n s) <= n)%nat.
Proof.
  revert s. induction n as [|n IH]; intros s.
  - destruct s; cbn; lia.
  - destruct s as [|c s']; cbn; [lia|]. specialize (IH s'). lia.
Qed.

(** X6. When the interpreter returns and a socket exists, [onMessage]
    completes normally whether or not the socket accepts the send: the
    answer is handed to the socket once, addressed to the sender and
    unchanged, and the last line printed is the success line with the first
    50 characters of the answer, also when the send failed. *)
Theorem onMessage_answers_the_sender (s : state World) (from body : string)
    (n : nat) (response : string) (w : World) :
  sock s = Some n ->
  handleMessage body (world s) = (inr response, w) ->
  let r := onMessage from body s in
  fst r = Normal tt
  /\ replies (out (snd r)) = (replies (out s) ++ [(from, response)])%list
  /\ handler_calls (out (snd r)) = (handler_calls (out s) ++ [body])%list
  /\ (exists printed,
        out (snd r)
        = (printed ++ [ConsoleLog (ResponseSent (Js.take 50 response))])%list)
  /\ (String.length (Js.take 50 response) <= 50)%nat
  /\ (exists rest : string, response = (Js.take 50 response ++ rest)%string)
  /\ (forall e w',
        sock_sendMessage from response None w = (inl e, w') ->
        out (snd r)
        = (out s ++ [ConsoleLog (Processing from); HandleMessage body;
                     SockSendMessage from response None;
                     ConsoleError (SendError e);
                     ConsoleLog (ResponseSent (Js.take 50 response))])%list).
Proof.
  intros Hs Hh r. subst r. rewrite onMessage_run. cbv zeta. rewrite Hh.
  rewrite (send_with_socket _ from response n) by exact Hs.
  cbn [world env sock timers out logged].
  destruct (sock_sendMessage from response None w) as [[e|[]] w'];
    cbn [fst snd out logged];
    rewrite !replies_app, !handler_calls_app;
    cbn [replies handler_calls app]; rewrite ?app_nil_r.
  - split; [reflexivity|]. split; [reflexivity|]. split; [reflexivity|].
    split; [eexists; reflexivity|]. split; [apply take_length|].
    split; [apply take_prefix|].
    intros e0 w0 H. inversion H; subst. now rewrite <- !app_assoc.
  - split; [reflexivity|]. split; [reflexivity|]. split; [reflexivity|].
    split; [eexists; reflexivity|]. split; [apply take_length|].
    split; [apply take_prefix|].
    intros e0 w0 H. discriminate H.
Qed.

(** What [onMessage] hands to the socket: at most one text, addressed to
    the sender. *)
Lemma onMessage_replies (from body : string) (s : state World) :
  exists l,
    replies (out (snd (onMessage from body s))) = (replies (out s) ++ l)%list
    /\ (forall r, In r l -> fst r = from).
Proof.
  rewrite onMessage_run. cbv zeta.
  destruct (handleMessage body (world s)) as [[e|response] w].
  - exists []. cbn [snd out logged]. rewrite replies_app. cbn [replies app].
    split; [reflexivity | intros r []].
  - destruct (sock s) as [n|] eqn:Hs.
    + rewrite (send_with_socket _ from response n) by exact Hs.
      cbn [world env sock timers out logged].
      exists [(from, response)].
      destruct (sock_sendMessage from response None w) as [[e|[]] w'];
        cbn [snd out logged]; rewrite !replies_app;
        cbn [replies app]; rewrite ?app_nil_r;
        (split; [reflexivity | intros r [<-|[]]; reflexivity]).
    + rewrite send_without_socket by exact Hs. exists [].
      cbn [snd out logged]. rewrite replies_app. cbn [replies app].
      split; [reflexivity | intros r []].
Qed.

Lemma upsert_body_stops (om : string -> string -> M World unit)
    (msg : WAMessage) (s : state World) :
  stops (WhatsApp.allowedChats (env s !! "ALLOWED_CHATS")) msg = true ->
  upsert_body om msg s = (Normal Return, s).
Proof.
  unfold stops. intros H.
  destruct (fromMe (key msg)) eqn:Hf; [discriminate|].
  destruct (message_ msg) as [m|] eqn:Hm; [|discriminate].
  rewrite (upsert_body_unfold om msg m s Hf Hm).
  apply route_rejected. now apply negb_true_iff.
Qed.

(** One pass of the loop body at a message the listener does not leave at. *)
Lemma upsert_body_goes_on (msg : WAMessage) (s : state World) :
  stops (WhatsApp.allowedChats (env s !! "ALLOWED_CHATS")) msg = false ->
  exists s',
    upsert_body onMessage msg s = (Normal Continue, s')
    /\ handler_calls (out s') = (handler_calls (out s) ++ routed_text msg)%list
    /\ exists l,
         replies (out s') = (replies (out s) ++ l)%list
         /\ forall r, In r l ->
              fst r = remoteJid (key msg)
              /\ fromMe (key msg) = false
              /\ passes (WhatsApp.allowedChats (env s !! "ALLOWED_CHATS"))
                   (remoteJid (key msg)) = true.
Proof.
  unfold stops, routed_text. intros H.
  destruct (fromMe (key msg)) eqn:Hf.
  { exists s. unfold upsert_body. rewrite Hf. cbn [app].
    rewrite app_nil_r. split; [reflexivity|]. split; [reflexivity|].
    exists []. rewrite app_nil_r. split; [reflexivity | intros r []]. }
  destruct (message_ msg) as [m|] eqn:Hm.
  2:{ exists s. unfold upsert_body. rewrite Hf, Hm. rewrite app_nil_r.
      split; [reflexivity|]. split; [reflexivity|].
      exists []. rewrite app_nil_r. split; [reflexivity | intros r []]. }
  apply negb_false_iff in H.
  rewrite (upsert_body_unfold onMessage msg m s Hf Hm).
  destruct (Js.truthy (messageText_of m)) eqn:Ht.
  - rewrite (route_accepted onMessage _ _ m s H Ht).
    match goal with
    | |- context [onMessage ?a ?b ?s1] =>
        pose proof (onMessage_calls_handler_once a b s1) as [Hcalls Hexit];
        pose proof (onMessage_replies a b s1) as (l & Hl & Hto)
    end.
    destruct (onMessage _ _ _) as [[[]|e|c] s'];
      cbn [fst snd out logged] in *.
    + exists s'. split; [reflexivity|]. split.
      * rewrite Hcalls, !handler_calls_app, handler_calls_auth_lines.
        cbn [handler_calls app]. now rewrite app_nil_r.
      * exists l. split.
        -- rewrite Hl, !replies_app, replies_auth_lines. cbn [replies app].
           now rewrite app_nil_r.
        -- intros r Hr. split; [now apply Hto|]. now split.
    + eexists. split; [reflexivity|]. cbn [out logged]. split.
      * rewrite handler_calls_app, Hcalls, !handler_calls_app,
          handler_calls_auth_lines.
        cbn [handler_calls app]. now rewrite !app_nil_r.
      * exists l. split.
        -- rewrite replies_app, Hl, !replies_app, replies_auth_lines.
           cbn [replies app]. now rewrite !app_nil_r.
        -- intros r Hr. split; [now apply Hto|]. now split.
    + exfalso. now apply (Hexit c).
  - rewrite (route_no_text onMessage _ _ m s H Ht). eexists.
    split; [reflexivity|]. cbn [out logged]. split.
    + rewrite handler_calls_app, handler_calls_auth_lines.
      now rewrite !app_nil_r.
    + exists []. split.
      * rewrite replies_app, replies_auth_lines. now rewrite !app_nil_r.
      * intros r [].
Qed.

(** The listener on a batch, summed up: it completes normally; the texts
    it hands to the interpreter and the sends it hands to the socket. *)
Lemma batch_summary (messages : list WAMessage) (s : state World) :
  let allowed := WhatsApp.allowedChats (env s !! "ALLOWED_CHATS") in
  let r := messages_upsert onMessage messages s in
  fst r = Normal tt
  /\ handler_calls (out (snd r))
     = (handler_calls (out s) ++ texts_reached allowed messages)%list
  /\ exists l,
       replies (out (snd r)) = (replies (out s) ++ l)%list
       /\ forall p, In p l ->
            passes allowed (fst p) = true
            /\ exists msg, In msg messages
                           /\ fromMe (key msg) = false
                           /\ remoteJid (key msg) = fst p.
Proof.
  cbv zeta. revert s. induction messages as [|msg rest IH]; intros s.
  - cbn [messages_upsert texts_reached]. unfold mret. cbn [M_ret fst snd].
    rewrite app_nil_r. split; [reflexivity|]. split; [reflexivity|].
    exists []. rewrite app_nil_r. split; [reflexivity | intros p []].
  - cbn [messages_upsert texts_reached]. unfold mbind. cbn [M_bind].
    destruct (stops (WhatsApp.allowedChats (env s !! "ALLOWED_CHATS")) msg)
      eqn:Hstop.
    + rewrite (upsert_body_stops onMessage msg s Hstop).
      unfold mret. cbn [M_ret fst snd]. rewrite app_nil_r.
      split; [reflexivity|]. split; [reflexivity|].
      exists []. rewrite app_nil_r. split; [reflexivity | intros p []].
    + destruct (upsert_body_goes_on msg s Hstop)
        as (s' & Hbody & Hcalls & l & Hl & Hto).
      assert (Henv : env s' = env s).
      { apply shape_env. pose proof (quiet_upsert_body msg s) as Hq.
        now rewrite Hbody in Hq. }
      rewrite Hbody. destruct (IH s') as (Hn & Hc & l' & Hl' & Hto').
      rewrite Henv in Hc, Hto'.
      split; [exact Hn|]. split.
      * rewrite Hc, Hcalls. now rewrite <- app_assoc.
      * exists (l ++ l')%list. split.
        -- rewrite Hl', Hl. now rewrite <- app_assoc.
        -- intros p Hp. apply in_app_or in Hp. destruct Hp as [Hp|Hp].
           ++ destruct (Hto p Hp) as (Hfrom & Hself & Hpass).
              split; [now rewrite Hfrom|].
              exists msg. split; [now left|]. now split.
           ++ destruct (Hto' p Hp) as (Hpass & m' & Hin & Hself & Hfrom).
              split; [exact Hpass|].
              exists m'. split; [now right|]. now split.
Qed.

(** X7. No error of the interpreter or of the socket leaves the message
    listener: on every batch, in every state, it completes normally (it
    neither throws nor ends the process), and it changes neither the
    environment, nor the socket field, nor the pending timers. *)
Theorem message_listener_never_fails (messages : list WAMessage)
    (s : state World) :
  let r := messages_upsert onMessage messages s in
  fst r = Normal tt
  /\ env (snd r) = env s /\ sock (snd r) = sock s /\ timers (snd r) = timers s.
Proof.
  cbv zeta. split; [apply (batch_summary messages s)|].
  pose proof (quiet_messages_upsert messages s) as Hq. unfold shape in Hq.
  repeat split; congruence.
Qed.

(** X8. The texts the listener hands to the interpreter during one batch
    are, in order, the non-empty texts of the messages that are not from the
    bot and that lie ahead of the first message whose sender fails the
    allow-list check; whether the interpreter or the socket fail on the way
    does not change them. *)
Theorem batch_reaches_interpreter_in_order (messages : list WAMessage)
    (s : state World) :
  handler_calls (out (snd (messages_upsert onMessage messages s)))
  = (handler_calls (out s)
     ++ texts_reached (WhatsApp.allowedChats (env s !! "ALLOWED_CHATS"))
          messages)%list.
Proof. apply (batch_summary messages s). Qed.

(** X9. The listener writes only to senders that passed the allow-list
    check: every send it hands to the socket during a batch is addressed to
    the sender of a message of that batch that is not from the bot, and that
    sender passes the check of lines 119-120 (it is in the allow-list
    whenever the allow-list is not empty). *)
Theorem replies_go_to_allowed_senders (messages : list WAMessage)
    (s : state World) :
  exists sent,
    replies (out (snd (messages_upsert onMessage messages s)))
    = (replies (out s) ++ sent)%list
    /\ forall p, In p sent ->
         passes (WhatsApp.allowedChats (env s !! "ALLOWED_CHATS")) (fst p) = true
         /\ (WhatsApp.allowedChats (env s !! "ALLOWED_CHATS") <> [] ->
             In (fst p) (WhatsApp.allowedChats (env s !! "ALLOWED_CHATS")))
         /\ exists msg, In msg messages
                        /\ fromMe (key msg) = false
                        /\ remoteJid (key msg) = fst p.
Proof.
  destruct (batch_summary messages s) as (_ & _ & l & Hl & Hto).
  exists l. split; [exact Hl|]. intros p Hp.
  destruct (Hto p Hp) as (Hpass & Hmsg). split; [exact Hpass|].
  split; [|exact Hmsg]. intros Hne.
  rewrite (passes_nonempty _ _ Hne) in Hpass. now apply includes_In.
Qed.

(** X10. Messages from the bot itself and messages without content are
    passed over without any effect (lines 107 and 110 use [continue]): a
    batch that starts with any number of them is handled exactly as the
    rest of the batch alone would be. *)
Theorem skipped_messages_change_nothing (om : string -> string -> M World unit)
    (skipped rest : list WAMessage) (s : state World) :
  Forall (fun msg => fromMe (key msg) = true \/ message_ msg = None) skipped ->
  messages_upsert om (skipped ++ rest) s = messages_upsert om rest s.
Proof.
  induction 1 as [|msg skipped Hmsg _ IH]; [reflexivity|].
  cbn [app messages_upsert]. unfold mbind. cbn [M_bind].
  unfold upsert_body.
  destruct (fromMe (key msg)); [exact IH|].
  destruct Hmsg as [Hmsg|Hmsg]; [discriminate|]. rewrite Hmsg. exact IH.
Qed.

(** X11. The filter fails open. If ALLOWED_CHATS resolves to the empty list
    when a message arrives, every sender passes: a message that is not from
    the bot and has a text reaches the interpreter, after a line that shows
    its identifier as a group exactly when it ends in "@g.us". *)
Theorem empty_allow_list_lets_everyone_in (s : state World) (msg : WAMessage)
    (m : Message) :
  fromMe (key msg) = false ->
  message_ msg = Some m ->
  Js.truthy (messageText_of m) = true ->
  WhatsApp.allowedChats (env s !! "ALLOWED_CHATS") = [] ->
  let from := remoteJid (key msg) in
  let r := upsert_body onMessage msg s in
  fst r = Normal Continue
  /\ handler_calls (out (snd r))
     = (handler_calls (out s) ++ [messageText_of m])%list
  /\ exists more,
       out (snd r)
       = (out s
          ++ [ConsoleLog (if Js.endsWith from "@g.us" then GroupHint from
                          else ContactHint from);
              ConsoleLog (MessageFrom from (messageText_of m));
              ConsoleLog (Processing from); HandleMessage (messageText_of m)]
          ++ more)%list.
Proof.
  intros Hf Hm Ht Hempty from r. subst r from.
  rewrite (upsert_body_unfold onMessage msg m s Hf Hm), Hempty.
  rewrite (route_accepted onMessage [] _ m s eq_refl Ht).
  unfold auth_lines. change (0 <? Z.of_nat (length (@nil string))) with false.
  cbn iota.
  assert (Hlines :
    (if Js.endsWith (remoteJid (key msg)) "@g.us"
     then [ConsoleLog (GroupHint (remoteJid (key msg)))]
     else [ConsoleLog (ContactHint (remoteJid (key msg)))])
    = [ConsoleLog (if Js.endsWith (remoteJid (key msg)) "@g.us"
                   then GroupHint (remoteJid (key msg))
                   else ContactHint (remoteJid (key msg)))])
    by now destruct (Js.endsWith _ _).
  rewrite Hlines. clear Hlines.
  set (hint := ConsoleLog _).
  rewrite onMessage_run. cbv zeta. cbn [world logged env sock timers out].
  destruct (handleMessage (messageText_of m) (world s)) as [[e|response] w].
  - cbn [fst snd out logged]. split; [reflexivity|].
    rewrite !handler_calls_app. cbn [handler_calls app].
    split; [now rewrite !app_nil_r|].
    exists [ConsoleError (ProcessError e)]. now rewrite <- !app_assoc.
  - destruct (sock s) as [n|] eqn:Hs.
    + rewrite (send_with_socket _ _ response n) by reflexivity.
      cbn [world env sock timers out].
      destruct (sock_sendMessage (remoteJid (key msg)) response None w)
        as [[e|[]] w'];
        cbn [fst snd out logged]; (split; [reflexivity|]);
        rewrite !handler_calls_app; cbn [handler_calls app];
        (split; [now rewrite !app_nil_r|]);
        eexists; rewrite <- !app_assoc; cbn [app]; reflexivity.
    + rewrite send_without_socket by reflexivity.
      cbn [fst snd out logged]. split; [reflexivity|].
      rewrite !handler_calls_app. cbn [handler_calls app].
      split; [now rewrite !app_nil_r|].
      eexists. rewrite <- !app_assoc. cbn [app]. reflexivity.
Qed.

End Batches.

(** ** The connection listener, the timer and whole runs *)

Section Runs.

Context {World : Type} {collaborators : Collaborators World}.

(** The listener on an update that is not a [close]. *)
Lemma connection_update_other (u : ConnectionUpdate) (s : state World) :
  connection u <> Some close ->
  connection_update u s
  = (Normal tt,
     logged s ([ConsoleLog (ConnectionStatus (connection u))]
               ++ qr_lines (qr u)
               ++ match connection u with
                  | Some open => [ConsoleLog Connected]
                  | _ => []
                  end)).
Proof.
  intros Hc. unfold connection_update, mbind.
  cbn [M_bind console_log emit]. rewrite (@qr_block World).
  destruct (connection u) as [[| |]|]; [ | | exfalso; now apply Hc | ];
    unfold mret; cbn [M_ret M_bind console_log emit];
    rewrite !logged_logged, ?app_nil_r; reflexivity.
Qed.

Lemma sockets_made_qr_lines (q : option string) :
  sockets_made (qr_lines q) = 0%nat.
Proof.
  unfold qr_lines. destruct q as [q|]; [|reflexivity].
  now destruct (Js.truthy q).
Qed.

Lemma timeouts_set_qr_lines (q : option string) :
  timeouts_set (qr_lines q) = 0%nat.
Proof.
  unfold qr_lines. destruct q as [q|]; [|reflexivity].
  now destruct (Js.truthy q).
Qed.

(** What the connection listener can change: only the timers, by one, and
    with them the count of scheduled timers. *)
Lemma connection_update_counts (u : ConnectionUpdate) (s : state World) :
  let r := connection_update u s in
  fst r = Normal tt
  /\ env (snd r) = env s /\ sock (snd r) = sock s
  /\ sockets_made (out (snd r)) = sockets_made (out s)
  /\ connect_calls (out (snd r)) = connect_calls (out s)
  /\ (length (timers (snd r)) + timeouts_set (out s)
      = length (timers s) + timeouts_set (out (snd r)))%nat.
Proof.
  cbv zeta. destruct (connection u) as [c|] eqn:Hc.
  - destruct c.
    + rewrite connection_update_other by (rewrite Hc; discriminate).
      rewrite Hc. cbn [fst snd logged env sock timers out].
      rewrite !sockets_made_app, !connect_calls_app, !timeouts_set_app.
      rewrite sockets_made_qr_lines, connect_calls_qr_lines,
        timeouts_set_qr_lines.
      cbn [sockets_made connect_calls timeouts_set]. repeat split; lia.
    + rewrite connection_update_other by (rewrite Hc; discriminate).
      rewrite Hc. cbn [fst snd logged env sock timers out].
      rewrite !sockets_made_app, !connect_calls_app, !timeouts_set_app.
      rewrite sockets_made_qr_lines, connect_calls_qr_lines,
        timeouts_set_qr_lines.
      cbn [sockets_made connect_calls timeouts_set]. repeat split; lia.
    + rewrite (connection_update_close u s Hc).
      destruct (shouldReconnect (statusCode_of u));
        cbn [fst snd env sock timers out];
        rewrite !sockets_made_app, !connect_calls_app, !timeouts_set_app;
        rewrite sockets_made_qr_lines, connect_calls_qr_lines,
          timeouts_set_qr_lines;
        cbn [sockets_made connect_calls timeouts_set];
        rewrite ?length_app; cbn [length]; repeat split; lia.
  - rewrite connection_update_other by (rewrite Hc; discriminate).
    rewrite Hc. cbn [fst snd logged env sock timers out].
    rewrite !sockets_made_app, !connect_calls_app, !timeouts_set_app.
    rewrite sockets_made_qr_lines, connect_calls_qr_lines,
      timeouts_set_qr_lines.
    cbn [sockets_made connect_calls timeouts_set]. repeat split; lia.
Qed.

(** X12. An update that is not a [close] only prints. The listener
    completes normally; the environment, the socket field and the pending
    timers are as before; and what it printed is the status line, then the
    pairing block when the update carries a non-empty code (the code as a
    QR picture and as text), then the connected line when the connection is
    [open]. *)
Theorem other_updates_only_print (u : ConnectionUpdate) (s : state World) :
  connection u <> Some close ->
  let r := connection_update u s in
  fst r = Normal tt
  /\ env (snd r) = env s /\ sock (snd r) = sock s
  /\ timers (snd r) = timers s
  /\ out (snd r)
     = (out s ++ [ConsoleLog (ConnectionStatus (connection u))]
        ++ match qr u with
           | Some q =>
               if Js.truthy q then
                 [ConsoleLog ScanQr; QrcodeGenerate q; ConsoleLog QrBroken;
                  ConsoleLog QrBar; ConsoleLog (QrText q); ConsoleLog QrBar;
                  ConsoleLog QrSites; ConsoleLog QrThenScan]
               else []
           | None => []
           end
        ++ match connection u with
           | Some open => [ConsoleLog Connected]
           | _ => []
           end)%list.
Proof.
  intros Hc r. subst r. rewrite (connection_update_other u s Hc).
  cbn [fst snd logged env sock timers out]. now conjuncts.
Qed.

(** X13. A reconnect attempt that fails is not retried. When the timer
    fires and the version lookup throws, [connect] prints the error and
    rejects; nobody awaits that promise, so the rejection ends in the
    [unhandledRejection] listener (which prints it unless it looks like
    decryption noise). The timer is gone, no new one is scheduled, no socket
    is created and [sock] keeps the closed one. *)
Theorem failed_reconnect_is_not_retried
    (om : string -> string -> M World unit) (s : state World)
    (ms : Z) (rest : list Z) (e : js_error) (w : World) :
  timers s = ms :: rest ->
  fetchLatestBaileysVersion (world s) = (inl e, w) ->
  fire_timer om s
  = (Normal tt,
     mkState (env s) w (sock s) rest
       (out s ++ [ConsoleLog AuthFolder; ConsoleError (ConnectError e)]
        ++ (if known_decrypt_noise (message e) then []
            else [ConsoleError (UnhandledLine e)]))).
Proof.
  intros Ht Hfetch. unfold fire_timer. rewrite Ht.
  unfold detached. cbn [try_catch]. rewrite connect_run. cbn [world].
  rewrite Hfetch, unhandledRejection_run.
  destruct (known_decrypt_noise (message e)); unfold logged;
    cbn [env world sock timers out]; rewrite ?app_nil_r, <- ?app_assoc;
    reflexivity.
Qed.

(** [connect] as the timer runs it, exactly. *)
Lemma detached_connect_exact (om : string -> string -> M World unit)
    (s : state World) :
  let r := detached (connect om) s in
  fst r = Normal tt
  /\ env (snd r) = env s
  /\ timers (snd r) = timers s
  /\ timeouts_set (out (snd r)) = timeouts_set (out s)
  /\ connect_calls (out (snd r)) = S (connect_calls (out s))
  /\ ((sock (snd r) = sock s
       /\ sockets_made (out (snd r)) = sockets_made (out s))
      \/ (sock (snd r) = Some (sockets_made (out s))
          /\ sockets_made (out (snd r)) = S (sockets_made (out s)))).
Proof.
  cbv zeta. unfold detached. cbn [try_catch]. rewrite connect_run.
  destruct (fetchLatestBaileysVersion (world s)) as [[e|[version isLatest]] w];
    [|destruct (useMultiFileAuthState w) as [[e|[]] w']];
    rewrite ?unhandledRejection_run;
    try destruct (known_decrypt_noise (message e));
    cbn [fst snd env out timers sock logged];
    rewrite ?connect_calls_app, ?sockets_made_app, ?timeouts_set_app;
    cbn [connect_calls sockets_made timeouts_set];
    (split; [reflexivity|]); (split; [reflexivity|]);
    (split; [reflexivity|]); (split; [lia|]); (split; [lia|]);
    first [ left; split; [reflexivity | lia]
          | right; split; [reflexivity | lia] ].
Qed.

Lemma sockets_made_chat_labels (chats : list string) :
  sockets_made
    (List.map (fun c => ConsoleLog (ChatLabel (Js.endsWith c "@g.us") c)) chats)
  = 0%nat.
Proof. induction chats; simpl; auto. Qed.

Lemma timeouts_set_chat_labels (chats : list string) :
  timeouts_set
    (List.map (fun c => ConsoleLog (ChatLabel (Js.endsWith c "@g.us") c)) chats)
  = 0%nat.
Proof. induction chats; simpl; auto. Qed.

Lemma deliver_accounted (i : input) (s s' : session World) :
  accounted (st s) -> deliver i s = Some s' -> accounted (st s').
Proof.
  intros Hacc H. destruct i as [u|messages| |e]; cbn [deliver] in H.
  - destruct (sock (st s)) as [n|] eqn:Hs; [|inversion H; subst; exact Hacc].
    destruct (survive _) as [s1|] eqn:E; cbn [mbind option_bind] in H;
      [|discriminate].
    inversion H; subst; clear H. cbn [st].
    apply survive_snd in E. subst s1.
    pose proof (connection_update_counts u (st s))
      as (Hn & _ & Hk & Hm & Hc & Ht).
    unfold detached. cbn [try_catch].
    destruct (connection_update u (st s)) as [[[]|e|c] s1];
      cbn [fst snd] in *; try discriminate.
    destruct Hacc as [(Hnone & _)|(Hsome & Hnew & Hsum)]; [congruence|].
    right. unfold newest_socket in *. rewrite Hk, Hm.
    split; [exact Hsome|]. split; [exact Hnew|]. lia.
  - destruct (sock (st s)) as [n|] eqn:Hs; [|inversion H; subst; exact Hacc].
    destruct (survive _) as [s1|] eqn:E; cbn [mbind option_bind] in H;
      [|discriminate].
    inversion H; subst; clear H. cbn [st].
    apply survive_snd in E. subst s1.
    pose proof (quiet_detached _ (quiet_messages_upsert messages) (st s)) as Hq.
    unfold shape in Hq. injection Hq as He Hk Ht Hm Hc Hto.
    unfold accounted, newest_socket in *. rewrite Hk, Ht, Hm, Hc, Hto.
    exact Hacc.
  - destruct (survive _) as [s1|] eqn:E; cbn [mbind option_bind] in H;
      [|discriminate].
    inversion H; subst; clear H. cbn [st].
    apply survive_snd in E. subst s1. unfold fire_timer.
    destruct (timers (st s)) as [|ms rest] eqn:Htim; [exact Hacc|].
    destruct Hacc as [(_ & Hnil & _)|(Hsome & Hnew & Hsum)]; [congruence|].
    match goal with
    | |- context [detached (connect onMessage) ?s1] =>
        pose proof (detached_connect_exact onMessage s1)
          as (_ & _ & Ht & Hto & Hc & Hsock)
    end.
    cbn [timers out sock] in Ht, Hto, Hc, Hsock.
    right. unfold newest_socket in *. rewrite Htim in Hsum. cbn [length] in Hsum.
    destruct Hsock as [[Hk Hm]|[Hk Hm]]; rewrite Hk, Hm, Hc, Ht, Hto.
    + split; [exact Hsome|]. split; [exact Hnew|]. lia.
    + split; [discriminate|]. split; [reflexivity|]. lia.
  - inversion H; subst; clear H. exact Hacc.
Qed.

Lemma run_accounted (inputs : list input) (s s' : session World) :
  accounted (st s) -> run inputs s = Some s' -> accounted (st s').
Proof.
  revert s. induction inputs as [|i rest IH]; intros s Hacc H;
    cbn [run] in H.
  - inversion H; subst; exact Hacc.
  - destruct (deliver i s) as [s1|] eqn:E; cbn [mbind option_bind] in H;
      [|discriminate].
    exact (IH s1 (deliver_accounted i s s1 Hacc E) H).
Qed.

Lemma start_accounted (e : gmap string string) (w : World)
    (s : session World) :
  start e w = Some s -> accounted (st s).
Proof.
  unfold start. intros H.
  destruct (survive _) as [s1|] eqn:E; cbn [mbind option_bind] in H;
    [|discriminate].
  inversion H; subst; clear H. cbn [st].
  unfold program, detached in E. cbn [try_catch] in E.
  destruct (Index.allowedChats (env (boot e w) !! "ALLOWED_CHATS"))
    as [|c cs] eqn:Hchats.
  - rewrite (main_without_chats (boot e w) Hchats) in E.
    rewrite unhandledRejection_run, no_chats_is_not_noise in E.
    cbn [survive] in E. inversion E; subst. left. now cbn.
  - assert (Hne : Index.allowedChats (env (boot e w) !! "ALLOWED_CHATS") <> [])
      by (rewrite Hchats; discriminate).
    destruct (missing_in (env (boot e w))) as [|k ks] eqn:Hmiss.
    + rewrite (main_with_config (boot e w) Hne Hmiss) in E. cbv zeta in E.
      rewrite Hchats in E.
      destruct (new_MessageHandler (world (boot e w))) as [[e0|[]] w0];
        [discriminate E|].
      rewrite connect_run in E. cbn [world] in E.
      destruct (fetchLatestBaileysVersion w0) as [[e0|[version isLatest]] w1];
        [discriminate E|].
      destruct (useMultiFileAuthState w1) as [[e0|[]] w2];
        [discriminate E|].
      cbn [survive] in E. injection E as <-.
      right. unfold newest_socket. cbn [logged env world sock timers out boot].
      cbn [app sockets_made connect_calls timeouts_set].
      rewrite !sockets_made_app, !connect_calls_app, !timeouts_set_app.
      rewrite sockets_made_chat_labels, connect_calls_chat_labels,
        timeouts_set_chat_labels.
      cbn. split; [discriminate|]. split; reflexivity.
    + assert (Hm : missing_in (env (boot e w)) <> [])
        by (rewrite Hmiss; discriminate).
      pose proof (main_exits_on_missing_keys (boot e w) Hne Hm) as Hx.
      destruct (main (boot e w)) as [[[]|e0|c0] s2]; cbn [fst] in Hx;
        try discriminate Hx.
      discriminate E.
Qed.

Lemma reachable_accounted (s : session World) :
  reachable s -> accounted (st s).
Proof.
  intros (e & w & inputs & H).
  destruct (start e w) as [s0|] eqn:E; cbn [mbind option_bind] in H;
    [|discriminate].
  exact (run_accounted inputs s0 s (start_accounted e w s0 E) H).
Qed.

(** X14. In every reachable session the [sock] field holds the socket that
    was created last: it is [null] exactly as long as no socket was ever
    created, and after every successful reconnect it is the new socket, not
    the closed one. *)
Theorem sock_is_the_newest_socket (s : session World) :
  reachable s ->
  sock (st s) = match sockets_made (out (st s)) with
                | O => None
                | S n => Some n
                end.
Proof.
  intros Hr. destruct (reachable_accounted s Hr)
    as [(Hnone & _ & _ & _ & Hzero)|(_ & Hnew & _)].
  - now rewrite Hnone, Hzero.
  - exact Hnew.
Qed.

(** X15. Entries into [connect] are accounted for by timers. In every
    reachable session that has a socket, the number of entries into
    [connect] plus the number of pending timers is one more than the number
    of timers ever scheduled: the first entry is the one of [main], and each
    later one is the single callback of one timer. Without a socket,
    [connect] was never entered and no timer exists. *)
Theorem connect_entries_match_timers (s : session World) :
  reachable s ->
  match sock (st s) with
  | Some _ =>
      (connect_calls (out (st s)) + length (timers (st s))
       = 1 + timeouts_set (out (st s)))%nat
  | None =>
      connect_calls (out (st s)) = 0%nat /\ timers (st s) = []
      /\ timeouts_set (out (st s)) = 0%nat
  end.
Proof.
  intros Hr. destruct (reachable_accounted s Hr)
    as [(Hnone & Ht & Hc & Hto & _)|(Hsome & _ & Hsum)].
  - rewrite Hnone. now split.
  - destruct (sock (st s)); [exact Hsum | congruence].
Qed.

End Runs.

(** ** The process-level listeners *)

Section Noise.

Context {World : Type}.

Lemma append_cons (c : ascii) (a b : string) :
  (String c a ++ b)%string = String c (a ++ b)%string.
Proof. reflexivity. Qed.

Lemma append_nil (b : string) : ("" ++ b)%string = b.
Proof. reflexivity. Qed.

Lemma startsWith_spec (s p : string) :
  Js.startsWith s p = true <-> exists b : string, s = (p ++ b)%string.
Proof.
  revert s. induction p as [|a p IH]; intros s.
  - destruct s; cbn; split; eauto.
  - destruct s as [|c s]; cbn.
    + split; [discriminate|]. intros [b Hb]. rewrite append_cons in Hb.
      discriminate.
    + rewrite andb_true_iff, IH. split.
      * intros [Hc [b Hb]]. apply Ascii.eqb_eq in Hc. subst.
        exists b. now rewrite append_cons.
      * intros [b Hb]. rewrite append_cons in Hb. inversion Hb; subst.
        split; [apply Ascii.eqb_refl | eauto].
Qed.

Lemma str_includes_spec (s p : string) :
  Js.str_includes s p = true <-> occurs_in p s.
Proof.
  unfold occurs_in. induction s as [|c s IH].
  - cbn [Js.str_includes]. rewrite orb_false_r, startsWith_spec. split.
    + intros [b Hb]. exists "", b. now rewrite append_nil.
    + intros (a & b & H). destruct a as [|c a]; [|rewrite append_cons in H;
        discriminate]. rewrite append_nil in H. eauto.
  - cbn [Js.str_includes]. rewrite orb_true_iff, startsWith_spec, IH. split.
    + intros [[b Hb]|(a & b & H)].
      * exists "", b. now rewrite append_nil.
      * exists (String c a), b. rewrite append_cons. now f_equal.
    + intros (a & b & H). destruct a as [|c' a].
      * left. rewrite append_nil in H. eauto.
      * right. rewrite append_cons in H. inversion H; subst. eauto.
Qed.

(** X16. The two process-level listeners stay silent exactly for errors
    whose message contains "Bad MAC", "decrypt" or "Session error" anywhere:
    for those, neither prints anything and neither ends the process. For
    every other error, the rejection listener prints it and lets the process
    run, and the exception listener prints it and ends the process with
    code 1. *)
Theorem listeners_silence_decrypt_noise (e : js_error) (s : state World) :
  let noise :=
    occurs_in "Bad MAC" (message e) \/ occurs_in "decrypt" (message e)
    \/ occurs_in "Session error" (message e) in
  (noise ->
     unhandledRejection e s = (Normal tt, s)
     /\ uncaughtException e s = (Normal tt, s))
  /\ (~ noise ->
      unhandledRejection e s
      = (Normal tt, logged s [ConsoleError (UnhandledLine e)])
      /\ uncaughtException e s
         = (Exited 1, logged s [ConsoleError (UncaughtLine e)])).
Proof.
  cbv zeta.
  assert (H : known_decrypt_noise (message e) = true
              <-> (occurs_in "Bad MAC" (message e)
                   \/ occurs_in "decrypt" (message e)
                   \/ occurs_in "Session error" (message e))).
  { unfold known_decrypt_noise.
    rewrite !orb_true_iff, !str_includes_spec. tauto. }
  unfold unhandledRejection, uncaughtException. split.
  - intros Hn. apply H in Hn. now rewrite Hn.
  - intros Hn. destruct (known_decrypt_noise (message e)) eqn:E.
    + exfalso. apply Hn, H. reflexivity.
    + split; reflexivity.
Qed.

End Noise.

(** ** The allow-list parse, entry by entry *)

Lemma split_comma_free (s e : string) :
  In e (Js.split "," s) -> comma_free e = true.
Proof.
  revert e. induction s as [|c s IH]; intros e H.
  - destruct H as [<-|[]]. reflexivity.
  - cbn [Js.split] in H. destruct (Ascii.eqb c ",") eqn:Hc.
    + destruct H as [<-|H]; [reflexivity | now apply IH].
    + destruct (Js.split "," s) as [|h t] eqn:Hs.
      * destruct H as [<-|[]]. cbn. now rewrite Hc.
      * destruct H as [<-|H].
        -- cbn. rewrite Hc. cbn. apply IH. now left.
        -- apply IH. now right.
Qed.

Lemma trimStart_comma_free (s : string) :
  comma_free s = true -> comma_free (Js.trimStart s) = true.
Proof.
  induction s as [|c s IH]; [reflexivity|]. intros H. cbn [Js.trimStart].
  destruct (Js.is_white_space c); [|exact H].
  apply IH. cbn in H. now apply andb_true_iff in H.
Qed.

Lemma trimEnd_comma_free (s : string) :
  comma_free s = true -> comma_free (Js.trimEnd s) = true.
Proof.
  induction s as [|c s IH]; [reflexivity|]. intros H. cbn [Js.trimEnd].
  cbn in H. apply andb_true_iff in H. destruct H as [Hc Hs].
  destruct (Js.is_white_space c && negb (Js.truthy (Js.trimEnd s)))%bool;
    [reflexivity|].
  cbn. rewrite Hc. cbn. now apply IH.
Qed.

Lemma trimStart_head_ok (s : string) : head_ok (Js.trimStart s) = true.
Proof.
  induction s as [|c s IH]; [reflexivity|]. cbn [Js.trimStart].
  destruct (Js.is_white_space c) eqn:Hc; [exact IH|]. cbn. now rewrite Hc.
Qed.

Lemma trimStart_fixed (s : string) :
  head_ok s = true -> Js.trimStart s = s.
Proof.
  destruct s as [|c s]; [reflexivity|]. cbn. intros H.
  apply negb_true_iff in H. now rewrite H.
Qed.

Lemma trimEnd_head_ok (s : string) :
  head_ok s = true -> head_ok (Js.trimEnd s) = true.
Proof.
  destruct s as [|c s]; [reflexivity|]. cbn [head_ok Js.trimEnd]. intros H.
  apply negb_true_iff in H. rewrite H. cbn. now rewrite H.
Qed.

Lemma trimEnd_idempotent (s : string) :
  Js.trimEnd (Js.trimEnd s) = Js.trimEnd s.
Proof.
  induction s as [|c s IH]; [reflexivity|]. cbn [Js.trimEnd].
  destruct (Js.is_white_space c && negb (Js.truthy (Js.trimEnd s)))%bool
    eqn:E; [reflexivity|].
  cbn [Js.trimEnd]. rewrite IH, E. reflexivity.
Qed.

Lemma trim_idempotent (s : string) : Js.trim (Js.trim s) = Js.trim s.
Proof.
  unfold Js.trim.
  rewrite (trimStart_fixed (Js.trimEnd (Js.trimStart s)))
    by apply trimEnd_head_ok, trimStart_head_ok.
  apply trimEnd_idempotent.
Qed.

Lemma white_space_codes_spec (a : ascii) :
  Js.is_white_space a = false -> ~ In (nat_of_ascii a) white_space_codes.
Proof.
  unfold Js.is_white_space, white_space_codes. cbv zeta.
  rewrite !orb_false_iff, !Nat.eqb_neq. cbn [In]. intros H Hin.
  repeat match goal with
         | H : _ /\ _ |- _ => destruct H
         | H : _ \/ _ |- _ => destruct H
         end; try contradiction; congruence.
Qed.

Lemma last_char_cons (c : ascii) (s : string) :
  last_char (String c s)
  = match s with
    | EmptyString => Some c
    | String _ _ => last_char s
    end.
Proof. now destruct s. Qed.

Lemma last_char_some (s : string) :
  s <> ""%string -> exists b, last_char s = Some b.
Proof.
  induction s as [|c s IH]; [congruence|]. intros _.
  rewrite last_char_cons. destruct s as [|c' s]; [now exists c|].
  now apply IH.
Qed.

(** What [trimEnd] returns does not end in white space. *)
Lemma trimEnd_last_char (s : string) (b : ascii) :
  last_char (Js.trimEnd s) = Some b -> Js.is_white_space b = false.
Proof.
  induction s as [|c s IH]; [discriminate|]. cbn [Js.trimEnd].
  destruct (Js.is_white_space c && negb (Js.truthy (Js.trimEnd s)))%bool
    eqn:E; [discriminate|].
  rewrite last_char_cons. destruct (Js.trimEnd s) as [|c' r] eqn:Hr.
  - intros H. injection H as <-. cbn in E.
    now rewrite andb_true_r in E.
  - exact IH.
Qed.

(** X17. Every entry of a parsed allow-list, at startup as well as per
    message, is non-empty, neither begins nor ends with one of the white
    space characters (tab, line feed, vertical tab, form feed, carriage
    return, space, no-break space), holds no comma, and is left as it is by
    a further [trim]. *)
Theorem allow_list_entries_are_tidy (v : option string) (c : string) :
  In c (Index.allowedChats v) \/ In c (WhatsApp.allowedChats v) ->
  c <> ""%string
  /\ (exists a b,
         first_char c = Some a /\ last_char c = Some b
         /\ ~ In (nat_of_ascii a) white_space_codes
         /\ ~ In (nat_of_ascii b) white_space_codes)
  /\ comma_free c = true
  /\ Js.trim c = c.
Proof.
  intros H.
  assert (Hin : In c (Index.allowedChats v))
    by (destruct H as [H|H]; [exact H | now rewrite <- parses_agree]).
  clear H. destruct v as [s|]; [|destruct Hin].
  cbn [Index.allowedChats or_array optional_chain] in Hin.
  apply filter_In in Hin. destruct Hin as [Hin Ht].
  apply in_map_iff in Hin. destruct Hin as (e & <- & He).
  assert (Hne : Js.trim e <> ""%string)
    by (intros Heq; rewrite Heq in Ht; discriminate Ht).
  split; [exact Hne|]. split; [|split].
  - destruct (last_char_some _ Hne) as [b Hb].
    pose proof (trimEnd_head_ok _ (trimStart_head_ok e)) as Hhead.
    fold (Js.trim e) in Hhead.
    destruct (Js.trim e) as [|a r] eqn:Htrim; [congruence|].
    exists a, b. split; [reflexivity|]. split; [exact Hb|]. split.
    + apply white_space_codes_spec. cbn [head_ok] in Hhead.
      now apply negb_true_iff in Hhead.
    + apply white_space_codes_spec. rewrite <- Htrim in Hb.
      exact (trimEnd_last_char _ _ Hb).
  - unfold Js.trim. apply trimEnd_comma_free, trimStart_comma_free.
    exact (split_comma_free s e He).
  - apply trim_idempotent.
Qed.

Lemma split_single (e : string) :
  comma_free e = true -> Js.split "," e = [e].
Proof.
  induction e as [|c e IH]; [reflexivity|]. cbn. intros H.
  apply andb_true_iff in H. destruct H as [Hc He].
  apply negb_true_iff in Hc. rewrite Hc, (IH He). reflexivity.
Qed.

Lemma split_app_comma (e x : string) :
  comma_free e = true ->
  Js.split "," (e ++ String "," x)%string = e :: Js.split "," x.
Proof.
  induction e as [|c e IH]; [reflexivity|]. cbn [comma_free]. intros H.
  apply andb_true_iff in H. destruct H as [Hc He].
  apply negb_true_iff in Hc. rewrite append_cons. cbn [Js.split].
  rewrite Hc, (IH He). reflexivity.
Qed.

Lemma split_join (entries : list string) :
  entries <> [] ->
  Forall (fun c => comma_free c = true) entries ->
  Js.split "," (join_commas entries) = entries.
Proof.
  induction entries as [|e rest IH]; [congruence|]. intros _ H.
  inversion H as [|? ? He Hrest]; subst.
  destruct rest as [|e2 rest].
  - cbn. now apply split_single.
  - change (join_commas (e :: e2 :: rest))
      with (e ++ String "," (join_commas (e2 :: rest)))%string.
    rewrite (split_app_comma _ _ He). f_equal.
    apply IH; [discriminate | exact Hrest].
Qed.

(** X18. Writing a list of identifiers as ALLOWED_CHATS and parsing it gives
    the list back: for identifiers that are non-empty, have no white space
    at either end and hold no comma, the parse of their comma-separated
    concatenation is the list itself, in the same order and with
    duplicates kept. *)
Theorem allow_list_round_trip (entries : list string) :
  Forall (fun c => Js.truthy c = true /\ Js.trim c = c
                   /\ comma_free c = true) entries ->
  Index.allowedChats (Some (join_commas entries)) = entries
  /\ WhatsApp.allowedChats (Some (join_commas entries)) = entries.
Proof.
  intros H.
  assert (Hi : Index.allowedChats (Some (join_commas entries)) = entries).
  { destruct entries as [|e rest]; [reflexivity|].
    cbn [Index.allowedChats or_array optional_chain].
    assert (Hfree : Forall (fun c => comma_free c = true) (e :: rest)).
    { apply List.Forall_forall. intros c Hc.
      now apply (proj1 (List.Forall_forall _ _) H c Hc). }
    assert (Hne : e :: rest <> []) by discriminate.
    rewrite (split_join _ Hne Hfree). clear Hfree Hne.
    induction H as [|c l (Ht & Htrim & _) Hl IH]; [reflexivity|].
    cbn [List.map List.filter]. rewrite Htrim, Ht. now f_equal. }
  split; [exact Hi | now rewrite parses_agree].
Qed.

(** ** What the startup prints, and which text of a message is used *)

Lemma str_length_app (a b : string) :
  String.length (a ++ b)%string = (String.length a + String.length b)%nat.
Proof.
  induction a as [|c a IH]; [reflexivity|].
  rewrite append_cons. cbn [String.length]. now rewrite IH.
Qed.

Lemma drop_app (a b : string) : Js.drop (String.length a) (a ++ b)%string = b.
Proof.
  induction a as [|c a IH]; [now destruct b|].
  rewrite append_cons. cbn [String.length Js.drop]. exact IH.
Qed.

Lemma drop_split (n : nat) (s : string) :
  exists a : string, s = (a ++ Js.drop n s)%string.
Proof.
  revert s. induction n as [|n IH]; intros s.
  - exists "". now destruct s.
  - destruct s as [|c s]; [now exists ""|].
    destruct (IH s) as [a Ha]. exists (String c a).
    rewrite append_cons. cbn [Js.drop]. now f_equal.
Qed.

Lemma endsWith_spec (s p : string) :
  Js.endsWith s p = true <-> exists a : string, s = (a ++ p)%string.
Proof.
  unfold Js.endsWith. rewrite andb_true_iff, Nat.leb_le, String.eqb_eq. split.
  - intros [_ Hd].
    destruct (drop_split (String.length s - String.length p) s) as [a Ha].
    exists a. now rewrite Hd in Ha.
  - intros [a ->]. rewrite str_length_app. split; [lia|].
    replace (String.length a + String.length p - String.length p)%nat
      with (String.length a) by lia.
    apply drop_app.
Qed.

Section Banner.

Context {World : Type} {collaborators : Collaborators World}.

(** X19. Whenever the allow-list is not empty, [main] starts its output
    with the start line, the two header lines and one line per entry of the
    allow-list, in order; an entry is shown as a group exactly when it ends
    in "@g.us", as a contact otherwise. This holds whatever happens next
    (missing keys, a failing collaborator, or a successful connection). *)
Theorem startup_lists_the_allow_list (s : state World) :
  Index.allowedChats (env s !! "ALLOWED_CHATS") <> [] ->
  (exists more,
     out (snd (main s))
     = (out s
        ++ [ConsoleLog Starting; ConsoleLog OnlyAuthorizedChats;
            ConsoleLog Rule]
        ++ List.map
             (fun chat => ConsoleLog (ChatLabel (Js.endsWith chat "@g.us") chat))
             (Index.allowedChats (env s !! "ALLOWED_CHATS"))
        ++ more)%list)
  /\ (forall chat,
        Js.endsWith chat "@g.us" = true
        <-> exists a : string, chat = (a ++ "@g.us")%string).
Proof.
  intros Hne. split; [|intros chat; apply endsWith_spec].
  destruct (missing_in (env s)) as [|k ks] eqn:Hmiss.
  - rewrite (main_with_config s Hne Hmiss). cbv zeta. unfold chat_lines.
    destruct (new_MessageHandler (world s)) as [[e|[]] w].
    + cbn [snd out]. eexists. rewrite <- !app_assoc. cbn [app]. reflexivity.
    + rewrite connect_run. cbn [world env sock timers out].
      destruct (fetchLatestBaileysVersion w) as [[e|[version isLatest]] w1];
        [|destruct (useMultiFileAuthState w1) as [[e|[]] w2]];
        cbn [snd out logged]; eexists; rewrite <- !app_assoc; cbn [app];
        reflexivity.
  - unfold main, mbind.
    cbn [M_bind console_log emit process_env read_env env logged].
    destruct (Index.allowedChats (env s !! "ALLOWED_CHATS")) as [|c cs] eqn:E;
      [congruence|].
    change (0 <? Z.of_nat (length (c :: cs))) with true.
    cbn [M_bind console_log emit env logged].
    rewrite forEach_console_log. cbn [env logged]. rewrite Hmiss.
    change (0 <? Z.of_nat (length (k :: ks))) with true.
    cbn [M_bind console_error emit env logged].
    rewrite forEach_console_error. cbn [snd out logged process_exit].
    eexists. rewrite <- !app_assoc. cbn [app]. reflexivity.
Qed.

(** X20. Which text of a message is used. For a message that is not from
    the bot and whose sender passes the allow-list check, the interpreter
    gets the plain conversation text when that is non-empty; otherwise
    (missing or empty) the extended text when that is non-empty; and it is
    not called at all when both are missing or empty. *)
Theorem conversation_text_comes_first (s : state World) (msg : WAMessage)
    (m : Message) :
  fromMe (key msg) = false ->
  message_ msg = Some m ->
  passes (WhatsApp.allowedChats (env s !! "ALLOWED_CHATS"))
         (remoteJid (key msg)) = true ->
  let extended :=
    match extendedTextMessage m with
    | Some x => match text x with
                | Some t => if Js.truthy t then [t] else []
                | None => []
                end
    | None => []
    end in
  handler_calls (out (snd (upsert_body onMessage msg s)))
  = (handler_calls (out s)
     ++ match conversation m with
        | Some c => if Js.truthy c then [c] else extended
        | None => extended
        end)%list.
Proof.
  intros Hf Hm Hp extended. subst extended.
  assert (Hstop : stops (WhatsApp.allowedChats (env s !! "ALLOWED_CHATS")) msg
                  = false)
    by (unfold stops; now rewrite Hf, Hm, Hp).
  destruct (upsert_body_goes_on msg s Hstop) as (s' & Hbody & Hcalls & _).
  rewrite Hbody. cbn [snd]. rewrite Hcalls. f_equal.
  unfold routed_text, messageText_of, Js.or_else. rewrite Hf, Hm.
  destruct (conversation m) as [c|]; [destruct (Js.truthy c) eqn:Hc|];
    cbn beta iota; rewrite ?Hc;
    try (destruct (extendedTextMessage m) as [x|];
         [destruct (text x) as [t|]; [destruct (Js.truthy t) eqn:Ht|]|]);
    cbn beta iota; rewrite ?Hc, ?Ht; reflexivity.
Qed.

End Banner.

(** ** The traffic of a whole session *)

Section Traffic.

Context {World : Type} {collaborators : Collaborators World}.

Lemma handler_calls_qr_lines (q : option string) :
  handler_calls (qr_lines q) = [].
Proof.
  unfold qr_lines. destruct q as [q|]; [|reflexivity].
  now destruct (Js.truthy q).
Qed.

Lemma replies_qr_lines (q : option string) : replies (qr_lines q) = [].
Proof.
  unfold qr_lines. destruct q as [q|]; [|reflexivity].
  now destruct (Js.truthy q).
Qed.

Lemma handler_calls_chat_labels (chats : list string) :
  handler_calls
    (List.map (fun c => ConsoleLog (ChatLabel (Js.endsWith c "@g.us") c)) chats)
  = [].
Proof. induction chats; simpl; auto. Qed.

Lemma replies_chat_labels (chats : list string) :
  replies
    (List.map (fun c => ConsoleLog (ChatLabel (Js.endsWith c "@g.us") c)) chats)
  = [].
Proof. induction chats; simpl; auto. Qed.

(** The connection listener neither calls the interpreter nor sends. *)
Lemma connection_update_traffic (u : ConnectionUpdate) (s : state World) :
  handler_calls (out (snd (connection_update u s))) = handler_calls (out s)
  /\ replies (out (snd (connection_update u s))) = replies (out s).
Proof.
  destruct (connection u) as [[| |]|] eqn:Hc.
  3:{ rewrite (connection_update_close u s Hc).
      destruct (shouldReconnect (statusCode_of u)); cbn [snd out];
        rewrite !handler_calls_app, !replies_app, handler_calls_qr_lines,
          replies_qr_lines;
        cbn [handler_calls replies app]; now rewrite !app_nil_r. }
  all: rewrite connection_update_other by (rewrite Hc; discriminate);
    rewrite Hc; cbn [snd out logged];
    rewrite !handler_calls_app, !replies_app, handler_calls_qr_lines,
      replies_qr_lines;
    cbn [handler_calls replies app]; now rewrite !app_nil_r.
Qed.

(** Neither does [connect]. *)
Lemma detached_connect_traffic (om : string -> string -> M World unit)
    (s : state World) :
  handler_calls (out (snd (detached (connect om) s))) = handler_calls (out s)
  /\ replies (out (snd (detached (connect om) s))) = replies (out s).
Proof.
  unfold detached. cbn [try_catch]. rewrite connect_run.
  destruct (fetchLatestBaileysVersion (world s)) as [[e|[version isLatest]] w];
    [|destruct (useMultiFileAuthState w) as [[e|[]] w']];
    rewrite ?unhandledRejection_run;
    try destruct (known_decrypt_noise (message e));
    cbn [snd out logged];
    rewrite ?handler_calls_app, ?replies_app;
    cbn [handler_calls replies app]; now rewrite ?app_nil_r.
Qed.

(** One turn of the event loop of a session that has a socket, when the
    turn leaves the value of [ALLOWED_CHATS] alone. *)
Lemma deliver_traffic (i : input) (s s' : session World) :
  sock (st s) <> None ->
  deliver i s = Some s' ->
  leaves_allow_list (env (st s) !! "ALLOWED_CHATS") i ->
  let allowed := WhatsApp.allowedChats (env (st s) !! "ALLOWED_CHATS") in
  env (st s') !! "ALLOWED_CHATS" = env (st s) !! "ALLOWED_CHATS"
  /\ sock (st s') <> None
  /\ exists l,
       replies (out (st s')) = (replies (out (st s)) ++ l)%list
       /\ forall p, In p l -> passes allowed (fst p) = true.
Proof.
  intros Hsock H Hleaves. cbv zeta.
  destruct i as [u|messages| |e']; cbn [deliver] in H.
  - destruct (sock (st s)) as [n|] eqn:Hs; [|congruence].
    destruct (survive _) as [s1|] eqn:E; cbn [mbind option_bind] in H;
      [|discriminate].
    inversion H; subst; clear H. cbn [st].
    apply survive_snd in E. subst s1.
    pose proof (connection_update_counts u (st s)) as (Hn & He & Hk & _).
    pose proof (connection_update_traffic u (st s)) as (Hh & Hr).
    unfold detached. cbn [try_catch].
    destruct (connection_update u (st s)) as [[[]|e|c] s1];
      cbn [fst snd] in *; try discriminate.
    split; [now rewrite He|]. split; [congruence|].
    exists []. rewrite app_nil_r. split; [exact Hr | intros p []].
  - destruct (sock (st s)) as [n|] eqn:Hs; [|congruence].
    destruct (survive _) as [s1|] eqn:E; cbn [mbind option_bind] in H;
      [|discriminate].
    inversion H; subst; clear H. cbn [st].
    apply survive_snd in E. subst s1.
    pose proof (quiet_messages_upsert messages (st s)) as Hq.
    destruct (batch_summary messages (st s)) as (Hn & Hh & l & Hl & Hto).
    unfold detached. cbn [try_catch].
    destruct (messages_upsert onMessage messages (st s)) as [[[]|e|c] s1];
      cbn [fst snd] in *; try discriminate.
    unfold shape in Hq. injection Hq as He Hk _ _ _ _.
    split; [now rewrite He|]. split; [congruence|].
    exists l. split; [exact Hl|]. intros p Hp. now apply Hto.
  - destruct (survive _) as [s1|] eqn:E; cbn [mbind option_bind] in H;
      [|discriminate].
    inversion H; subst; clear H. cbn [st].
    apply survive_snd in E. subst s1. unfold fire_timer.
    destruct (timers (st s)) as [|ms rest].
    + cbn [snd]. split; [reflexivity|]. split; [exact Hsock|].
      exists []. rewrite app_nil_r. split; [reflexivity | intros p []].
    + match goal with
      | |- context [detached (connect onMessage) ?s1] =>
          pose proof (detached_connect_exact onMessage s1)
            as (_ & He & _ & _ & _ & Hk);
          pose proof (detached_connect_traffic onMessage s1) as (Hh & Hr)
      end.
      cbn [env sock out] in He, Hk, Hh, Hr.
      split; [now rewrite He|]. split.
      * destruct Hk as [[Hk _]|[Hk _]]; rewrite Hk; [exact Hsock|discriminate].
      * exists []. rewrite app_nil_r. split; [exact Hr | intros p []].
  - inversion H; subst; clear H. cbn [st env sock out].
    cbn [leaves_allow_list] in Hleaves.
    split; [exact Hleaves|]. split; [exact Hsock|].
    exists []. rewrite app_nil_r. split; [reflexivity | intros p []].
Qed.

Lemma run_traffic (inputs : list input) (s s' : session World) :
  sock (st s) <> None ->
  run inputs s = Some s' ->
  Forall (leaves_allow_list (env (st s) !! "ALLOWED_CHATS")) inputs ->
  let allowed := WhatsApp.allowedChats (env (st s) !! "ALLOWED_CHATS") in
  exists l,
    replies (out (st s')) = (replies (out (st s)) ++ l)%list
    /\ forall p, In p l -> passes allowed (fst p) = true.
Proof.
  cbv zeta. revert s.
  induction inputs as [|i rest IH]; intros s Hsock H Hall; cbn [run] in H.
  - inversion H; subst. exists []. rewrite app_nil_r.
    split; [reflexivity | intros p []].
  - destruct (deliver i s) as [s1|] eqn:E; cbn [mbind option_bind] in H;
      [|discriminate].
    inversion Hall as [|? ? Hi Hrest]; subst.
    destruct (deliver_traffic i s s1 Hsock E Hi) as (He & Hk & l & Hl & Hto).
    rewrite <- He in Hrest.
    destruct (IH s1 Hk H Hrest) as (l' & Hl' & Hto').
    rewrite He in Hto'.
    exists (l ++ l')%list. split.
    + rewrite Hl', Hl. now rewrite <- app_assoc.
    + intros p Hp. apply in_app_or in Hp. destruct Hp; auto.
Qed.

(** Without a socket and without timers nothing is ever printed, called or
    sent. *)
Lemma run_without_socket (inputs : list input) (s s' : session World) :
  sock (st s) = None -> timers (st s) = [] ->
  run inputs s = Some s' -> out (st s') = out (st s).
Proof.
  revert s. induction inputs as [|i rest IH]; intros s Hs Ht H;
    cbn [run] in H.
  - now inversion H.
  - destruct i as [u|messages| |e']; cbn [deliver] in H.
    + rewrite Hs in H. cbn [mbind option_bind] in H. now apply IH.
    + rewrite Hs in H. cbn [mbind option_bind] in H. now apply IH.
    + unfold fire_timer in H. rewrite Ht in H.
      cbn [survive mbind option_bind snd] in H.
      apply IH in H; [exact H | exact Hs | exact Ht].
    + cbn [mbind option_bind] in H.
      apply IH in H; [exact H | exact Hs | exact Ht].
Qed.

(** The session right after a startup that did not end the process. *)
Lemma start_summary (e : gmap string string) (w : World) (s : session World) :
  start e w = Some s ->
  env (st s) = e /\ timers (st s) = []
  /\ handler_calls (out (st s)) = [] /\ replies (out (st s)) = []
  /\ (sock (st s) <> None -> Index.allowedChats (e !! "ALLOWED_CHATS") <> []).
Proof.
  unfold start. intros H.
  destruct (survive _) as [s1|] eqn:E; cbn [mbind option_bind] in H;
    [|discriminate].
  inversion H; subst; clear H. cbn [st].
  unfold program, detached in E. cbn [try_catch] in E.
  destruct (Index.allowedChats (env (boot e w) !! "ALLOWED_CHATS"))
    as [|c cs] eqn:Hchats.
  - rewrite (main_without_chats (boot e w) Hchats) in E.
    rewrite unhandledRejection_run, no_chats_is_not_noise in E.
    cbn [survive] in E. injection E as <-. cbn. now conjuncts.
  - assert (Hne : Index.allowedChats (env (boot e w) !! "ALLOWED_CHATS") <> [])
      by (rewrite Hchats; discriminate).
    cbn [env boot] in Hchats.
    destruct (missing_in (env (boot e w))) as [|k ks] eqn:Hmiss.
    + rewrite (main_with_config (boot e w) Hne Hmiss) in E. cbv zeta in E.
      destruct (new_MessageHandler (world (boot e w))) as [[e0|[]] w0];
        [discriminate E|].
      rewrite connect_run in E. cbn [world] in E.
      destruct (fetchLatestBaileysVersion w0) as [[e0|[version isLatest]] w1];
        [discriminate E|].
      destruct (useMultiFileAuthState w1) as [[e0|[]] w2];
        [discriminate E|].
      cbn [survive] in E. injection E as <-.
      unfold chat_lines. cbn [logged env world sock timers out boot].
      rewrite !handler_calls_app, !replies_app.
      cbn [app handler_calls replies].
      rewrite !handler_calls_app, !replies_app, handler_calls_chat_labels,
        replies_chat_labels.
      split; [reflexivity|]. split; [reflexivity|].
      split; [reflexivity|]. split; [reflexivity|].
      intros _. rewrite Hchats. discriminate.
    + assert (Hm : missing_in (env (boot e w)) <> [])
        by (rewrite Hmiss; discriminate).
      pose proof (main_exits_on_missing_keys (boot e w) Hne Hm) as Hx.
      destruct (main (boot e w)) as [[[]|e0|c0] s2]; cbn [fst] in Hx;
        try discriminate Hx.
      discriminate E.
Qed.

(** [main] neither calls the interpreter nor sends. *)
Lemma main_traffic (s : state World) :
  handler_calls (out (snd (main s))) = handler_calls (out s)
  /\ replies (out (snd (main s))) = replies (out s).
Proof.
  destruct (Index.allowedChats (env s !! "ALLOWED_CHATS")) as [|c cs] eqn:Hchats.
  { rewrite (main_without_chats s Hchats). cbn [snd out logged].
    rewrite handler_calls_app, replies_app. cbn [handler_calls replies].
    now rewrite !app_nil_r. }
  assert (Hne : Index.allowedChats (env s !! "ALLOWED_CHATS") <> [])
    by (rewrite Hchats; discriminate).
  destruct (missing_in (env s)) as [|k ks] eqn:Hmiss.
  - rewrite (main_with_config s Hne Hmiss). cbv zeta. unfold chat_lines.
    destruct (new_MessageHandler (world s)) as [[e|[]] w];
      [|rewrite connect_run; cbn [world env sock timers out];
        destruct (fetchLatestBaileysVersion w) as [[e|[version isLatest]] w1];
        [|destruct (useMultiFileAuthState w1) as [[e|[]] w2]]];
      cbn [snd out logged];
      repeat (rewrite ?handler_calls_app, ?replies_app,
                ?handler_calls_chat_labels, ?replies_chat_labels;
              cbn [app handler_calls replies]);
      now rewrite ?app_nil_r.
  - unfold main, mbind.
    cbn [M_bind console_log emit process_env read_env env logged].
    rewrite Hchats.
    change (0 <? Z.of_nat (length (c :: cs))) with true.
    cbn [M_bind console_log emit env logged].
    rewrite forEach_console_log. cbn [env logged]. rewrite Hmiss.
    change (0 <? Z.of_nat (length (k :: ks))) with true.
    cbn [M_bind console_error emit env logged].
    rewrite forEach_console_error. cbn [snd out logged process_exit].
    assert (Hh : forall l : list string,
               handler_calls
                 (List.map (fun x => ConsoleError (MissingVar x)) l) = [])
      by (induction l; simpl; auto).
    assert (Hr : forall l : list string,
               replies (List.map (fun x => ConsoleError (MissingVar x)) l) = [])
      by (induction l; simpl; auto).
    repeat (rewrite ?handler_calls_app, ?replies_app,
              ?handler_calls_chat_labels, ?replies_chat_labels, ?Hh, ?Hr;
            cbn [app handler_calls replies]).
    now rewrite ?app_nil_r.
Qed.

(** X21. The interpreter is called, and a text is handed to a socket, by
    the message listener only. The startup ([main], run without being
    awaited), [connect], the connection listener and the callback of the
    reconnect timer leave the list of interpreter calls and the list of
    sends exactly as they found them, whatever the environment, the update
    and the answers of the collaborators. *)
Theorem only_the_message_listener_talks (s : state World)
    (u : ConnectionUpdate) (om : string -> string -> M World unit) :
  let untouched (s' : state World) :=
    handler_calls (out s') = handler_calls (out s)
    /\ replies (out s') = replies (out s) in
  untouched (snd (program s))
  /\ untouched (snd (connect om s))
  /\ untouched (snd (connection_update u s))
  /\ untouched (snd (fire_timer om s)).
Proof.
  cbv zeta. split; [|split; [|split]].
  - unfold program, detached. cbn [try_catch].
    pose proof (main_traffic s) as Hm.
    destruct (main s) as [[[]|e|c] s1]; cbn [snd] in Hm |- *;
      try exact Hm.
    rewrite unhandledRejection_run.
    destruct (known_decrypt_noise (message e)); cbn [snd out logged];
      [exact Hm|].
    rewrite handler_calls_app, replies_app. cbn [handler_calls replies].
    now rewrite !app_nil_r.
  - rewrite connect_run.
    destruct (fetchLatestBaileysVersion (world s))
      as [[e|[version isLatest]] w];
      [|destruct (useMultiFileAuthState w) as [[e|[]] w']];
      cbn [snd out];
      rewrite handler_calls_app, replies_app;
      cbn [handler_calls replies]; now rewrite !app_nil_r.
  - apply connection_update_traffic.
  - unfold fire_timer. destruct (timers s) as [|ms rest];
      [split; reflexivity|].
    match goal with
    | |- context [detached (connect om) ?s1] =>
        pose proof (detached_connect_traffic om s1) as Ht
    end.
    exact Ht.
Qed.

(** X22. Over a whole session in which no turn of outside code changes the
    value of [ALLOWED_CHATS], every text handed to a socket is addressed to
    an identifier of the allow-list the process was started with: the bot
    never writes to a chat outside it. (The per-message check reads the
    environment anew; when the value does change, the replies follow the
    new value, see [reply_follows_a_changed_allow_list].) *)
Theorem session_writes_only_to_the_allow_list (e : gmap string string)
    (w : World) (inputs : list input) (s0 s : session World) :
  start e w = Some s0 ->
  run inputs s0 = Some s ->
  Forall (leaves_allow_list (e !! "ALLOWED_CHATS")) inputs ->
  forall p, In p (replies (out (st s))) ->
    In (fst p) (Index.allowedChats (e !! "ALLOWED_CHATS")).
Proof.
  intros Hstart Hrun Hall p Hp.
  destruct (start_summary e w s0 Hstart) as (He & Ht & _ & Hr & Hne).
  destruct (sock (st s0)) as [n|] eqn:Hs.
  - assert (Hsock : sock (st s0) <> None) by congruence.
    rewrite <- He in Hall.
    destruct (run_traffic inputs s0 s Hsock Hrun Hall) as (l & Hl & Hto).
    rewrite Hl, Hr in Hp. cbn [app] in Hp.
    specialize (Hto p Hp). rewrite He, parses_agree in Hto.
    specialize (Hne ltac:(discriminate)).
    rewrite (passes_nonempty _ _ Hne) in Hto. now apply includes_In.
  - rewrite (run_without_socket inputs s0 s Hs Ht Hrun), Hr in Hp.
    destruct Hp.
Qed.

End Traffic.

(** ** The further properties on sample inputs *)

Lemma version_failure_ends_startup_witness :
  let s := @boot unit Sample.complete_env tt in
  let r := @main unit Outage.no_version s in
  Index.allowedChats (env s !! "ALLOWED_CHATS") <> []
  /\ missing_in (env s) = []
  /\ fst r = Exited 1
  /\ sock (snd r) = None
  /\ out (snd r)
     = [ConsoleLog Starting; ConsoleLog OnlyAuthorizedChats; ConsoleLog Rule;
        ConsoleLog (ChatLabel true "1234@g.us"); ConsoleLog AuthFolder;
        ConsoleError (ConnectError (JsError "fetch failed"));
        ConsoleError (StartError (JsError "fetch failed"))].
Proof.
  cbv zeta.
  assert (Hc : Index.allowedChats
                 (env (@boot unit Sample.complete_env tt) !! "ALLOWED_CHATS")
               <> []) by (vm_compute; discriminate).
  assert (Hm : missing_in (env (@boot unit Sample.complete_env tt)) = [])
    by (vm_compute; reflexivity).
  split; [exact Hc|]. split; [exact Hm|].
  rewrite (@version_failure_ends_startup unit Outage.no_version
             (@boot unit Sample.complete_env tt) (JsError "fetch failed")
             tt tt Hc Hm eq_refl eq_refl).
  conjuncts; vm_compute; reflexivity.
Defined.

Lemma onMessage_answers_the_sender_witness :
  let s := mkState Sample.complete_env tt (Some 0%nat) [] [] in
  let r := @onMessage unit Sample.failing_transport "1234@g.us" "hello" s in
  fst r = Normal tt
  /\ replies (out (snd r)) = [("1234@g.us", "echo hello")]
  /\ out (snd r)
     = [ConsoleLog (Processing "1234@g.us"); HandleMessage "hello";
        SockSendMessage "1234@g.us" "echo hello" None;
        ConsoleError (SendError (JsError "Connection Closed"));
        ConsoleLog (ResponseSent "echo hello")].
Proof.
  cbv zeta.
  destruct (@onMessage_answers_the_sender unit Sample.failing_transport
              (mkState Sample.complete_env tt (Some 0%nat) [] [])
              "1234@g.us" "hello" 0%nat "echo hello" tt eq_refl eq_refl)
    as (Hn & Hr & _ & _ & _ & _ & Hfail).
  split; [exact Hn|]. split; [exact Hr|].
  exact (Hfail (JsError "Connection Closed") tt eq_refl).
Defined.

Lemma skipped_messages_change_nothing_witness :
  let s := mkState Sample.complete_env tt (Some 0%nat) [] [] in
  let own := {| key := {| fromMe := true; remoteJid := "1234@g.us" |};
                message_ := Some {| conversation := Some "echo hello";
                                    extendedTextMessage := None |} |} in
  let receipt := {| key := {| fromMe := false; remoteJid := "5555@g.us" |};
                    message_ := None |} in
  let member := Sample.text_from "1234@g.us" "hello" in
  Forall (fun msg => fromMe (key msg) = true \/ message_ msg = None)
    [own; receipt]
  /\ messages_upsert (@onMessage unit Sample.calm) [own; receipt; member] s
     = messages_upsert (@onMessage unit Sample.calm) [member] s.
Proof.
  cbv zeta.
  assert (H : Forall (fun msg => fromMe (key msg) = true \/ message_ msg = None)
                [ {| key := {| fromMe := true; remoteJid := "1234@g.us" |};
                     message_ := Some {| conversation := Some "echo hello";
                                         extendedTextMessage := None |} |};
                  {| key := {| fromMe := false; remoteJid := "5555@g.us" |};
                     message_ := None |} ]).
  { constructor; [left; reflexivity|].
    constructor; [right; reflexivity | constructor]. }
  split; [exact H|].
  exact (@skipped_messages_change_nothing unit (@onMessage unit Sample.calm)
           _ [Sample.text_from "1234@g.us" "hello"] _ H).
Defined.

Lemma empty_allow_list_lets_everyone_in_witness :
  let s := mkState (Sample.env_with None (Some "sheet-1")) tt (Some 0%nat) [] [] in
  let msg := Sample.text_from "5555@g.us" "hi" in
  let r := upsert_body (@onMessage unit Sample.calm) msg s in
  WhatsApp.allowedChats (env s !! "ALLOWED_CHATS") = []
  /\ fst r = Normal Continue
  /\ handler_calls (out (snd r)) = ["hi"].
Proof.
  cbv zeta.
  assert (He : WhatsApp.allowedChats
                 (Sample.env_with None (Some "sheet-1") !! "ALLOWED_CHATS") = [])
    by (vm_compute; reflexivity).
  split; [exact He|].
  destruct (@empty_allow_list_lets_everyone_in unit Sample.calm
              (mkState (Sample.env_with None (Some "sheet-1")) tt
                       (Some 0%nat) [] [])
              (Sample.text_from "5555@g.us" "hi")
              {| conversation := Some "hi"; extendedTextMessage := None |}
              eq_refl eq_refl eq_refl He) as (Hn & Hc & _).
  split; [exact Hn | exact Hc].
Defined.

Lemma other_updates_only_print_witness :
  let s := mkState Sample.complete_env tt (Some 0%nat) [] [] in
  let u := {| connection := None; lastDisconnect := None; qr := Some "2@abc" |} in
  let r := @connection_update unit Sample.calm u s in
  connection u <> Some close
  /\ fst r = Normal tt
  /\ timers (snd r) = []
  /\ out (snd r)
     = [ConsoleLog (ConnectionStatus None); ConsoleLog ScanQr;
        QrcodeGenerate "2@abc"; ConsoleLog QrBroken; ConsoleLog QrBar;
        ConsoleLog (QrText "2@abc"); ConsoleLog QrBar; ConsoleLog QrSites;
        ConsoleLog QrThenScan].
Proof.
  cbv zeta.
  assert (H : connection {| connection := None; lastDisconnect := None;
                            qr := Some "2@abc" |} <> Some close)
    by discriminate.
  split; [exact H|].
  destruct (@other_updates_only_print unit Sample.calm
              {| connection := None; lastDisconnect := None;
                 qr := Some "2@abc" |}
              (mkState Sample.complete_env tt (Some 0%nat) [] []) H)
    as (Hn & _ & _ & Ht & Ho).
  split; [exact Hn|]. split; [exact Ht | exact Ho].
Defined.

Lemma failed_reconnect_is_not_retried_witness :
  let s := mkState Sample.complete_env tt (Some 0%nat) [5000] [SetTimeout 5000] in
  let r := @fire_timer unit Outage.no_version
             (@onMessage unit Outage.no_version) s in
  timers s = [5000]
  /\ fst r = Normal tt
  /\ timers (snd r) = []
  /\ sock (snd r) = Some 0%nat
  /\ out (snd r)
     = [SetTimeout 5000; ConsoleLog AuthFolder;
        ConsoleError (ConnectError (JsError "fetch failed"));
        ConsoleError (UnhandledLine (JsError "fetch failed"))].
Proof.
  cbv zeta. split; [reflexivity|].
  rewrite (@failed_reconnect_is_not_retried unit Outage.no_version
             (@onMessage unit Outage.no_version)
             (mkState Sample.complete_env tt (Some 0%nat) [5000]
                      [SetTimeout 5000])
             5000 [] (JsError "fetch failed") tt eq_refl eq_refl).
  conjuncts; vm_compute; reflexivity.
Defined.

Lemma sock_is_the_newest_socket_witness :
  let started := snd (@program unit Sample.calm (boot Sample.complete_env tt)) in
  let closed :=
    snd (@connection_update unit Sample.calm (Sample.closed_with 428) started) in
  let s := mkSession Connecting
             (snd (@fire_timer unit Sample.calm (@onMessage unit Sample.calm)
                     closed)) in
  @reachable unit Sample.calm s
  /\ sockets_made (out (st s)) = 2%nat
  /\ sock (st s) = Some 1%nat.
Proof.
  cbv zeta.
  match goal with
  | |- @reachable _ _ ?s /\ _ =>
      assert (Hr : @reachable unit Sample.calm s)
  end.
  { exists Sample.complete_env, tt,
      [ConnectionUpdateEvent (Sample.closed_with 428); TimerFires].
    vm_compute. reflexivity. }
  split; [exact Hr|].
  pose proof (@sock_is_the_newest_socket unit Sample.calm _ Hr) as Hs.
  match type of Hs with
  | _ = match sockets_made ?o with _ => _ end =>
      assert (Hn : sockets_made o = 2%nat) by (vm_compute; reflexivity)
  end.
  split; [exact Hn|]. rewrite Hs, Hn. reflexivity.
Defined.

Lemma connect_entries_match_timers_witness :
  let started := snd (@program unit Sample.calm (boot Sample.complete_env tt)) in
  let closed :=
    snd (@connection_update unit Sample.calm (Sample.closed_with 428) started) in
  let again :=
    snd (@connection_update unit Sample.calm (Sample.closed_with 428) closed) in
  let s := mkSession Connecting
             (snd (@fire_timer unit Sample.calm (@onMessage unit Sample.calm)
                     again)) in
  @reachable unit Sample.calm s
  /\ timeouts_set (out (st s)) = 2%nat
  /\ length (timers (st s)) = 1%nat
  /\ connect_calls (out (st s)) = 2%nat.
Proof.
  cbv zeta.
  match goal with
  | |- @reachable _ _ ?s /\ _ =>
      assert (Hr : @reachable unit Sample.calm s)
  end.
  { exists Sample.complete_env, tt,
      [ConnectionUpdateEvent (Sample.closed_with 428);
       ConnectionUpdateEvent (Sample.closed_with 428); TimerFires].
    vm_compute. reflexivity. }
  split; [exact Hr|].
  pose proof (@connect_entries_match_timers unit Sample.calm _ Hr) as Hs.
  match type of Hs with
  | match sock ?x with _ => _ end =>
      assert (Hsock : sock x = Some 1%nat) by (vm_compute; reflexivity);
      assert (Hto : timeouts_set (out x) = 2%nat) by (vm_compute; reflexivity);
      assert (Hlen : length (timers x) = 1%nat) by (vm_compute; reflexivity)
  end.
  rewrite Hsock in Hs. split; [exact Hto|]. split; [exact Hlen|]. lia.
Defined.

Lemma allow_list_entries_are_tidy_witness :
  let c := "5511@s.whatsapp.net" in
  In c (Index.allowedChats (Some " 1234@g.us , ,5511@s.whatsapp.net ,"))
  /\ c <> ""%string
  /\ (exists a b,
         first_char c = Some a /\ last_char c = Some b
         /\ ~ In (nat_of_ascii a) white_space_codes
         /\ ~ In (nat_of_ascii b) white_space_codes)
  /\ comma_free c = true
  /\ Js.trim c = c.
Proof.
  cbv zeta.
  assert (H : In "5511@s.whatsapp.net"
                (Index.allowedChats
                   (Some " 1234@g.us , ,5511@s.whatsapp.net ,")))
    by (vm_compute; right; left; reflexivity).
  split; [exact H|].
  exact (allow_list_entries_are_tidy
           (Some " 1234@g.us , ,5511@s.whatsapp.net ,")
           "5511@s.whatsapp.net" (or_introl H)).
Defined.

Lemma allow_list_round_trip_witness :
  let entries := ["1234@g.us"; "5511@s.whatsapp.net"; "1234@g.us"] in
  join_commas entries = "1234@g.us,5511@s.whatsapp.net,1234@g.us"
  /\ Index.allowedChats (Some (join_commas entries)) = entries
  /\ WhatsApp.allowedChats (Some (join_commas entries)) = entries.
Proof.
  cbv zeta. split; [reflexivity|].
  apply (allow_list_round_trip
           ["1234@g.us"; "5511@s.whatsapp.net"; "1234@g.us"]).
  repeat constructor.
Defined.

Lemma session_writes_only_to_the_allow_list_witness :
  let inputs :=
    [MessagesUpsertEvent [Sample.text_from "1234@g.us" "hello"];
     EnvironmentChanges (<["SHEET_ID" := "sheet-2"]> Sample.complete_env);
     MessagesUpsertEvent [Sample.text_from "5555@g.us" "x"]] in
  exists s0 s,
    @start unit Sample.calm Sample.complete_env tt = Some s0
    /\ @run unit Sample.calm inputs s0 = Some s
    /\ replies (out (st s)) = [("1234@g.us", "echo hello")]
    /\ In "1234@g.us"
         (Index.allowedChats (Sample.complete_env !! "ALLOWED_CHATS")).
Proof.
  cbv zeta.
  destruct (@start unit Sample.calm Sample.complete_env tt) as [s0|] eqn:E0;
    [|vm_compute in E0; discriminate E0].
  assert (Hs0 : s0 = mkSession Connecting
                       (snd (@program unit Sample.calm
                               (boot Sample.complete_env tt)))).
  { vm_compute in E0. injection E0 as <-. vm_compute. reflexivity. }
  match goal with
  | |- exists _ s, _ /\ @run _ _ ?inputs _ = _ /\ _ =>
      destruct (@run unit Sample.calm inputs s0) as [s|] eqn:E1;
      [|rewrite Hs0 in E1; vm_compute in E1; discriminate E1]
  end.
  exists s0, s. split; [reflexivity|]. split; [exact E1|].
  assert (Hr : replies (out (st s)) = [("1234@g.us", "echo hello")]).
  { rewrite Hs0 in E1. vm_compute in E1. injection E1 as <-. reflexivity. }
  split; [exact Hr|].
  assert (Hall : Forall
                   (leaves_allow_list (Sample.complete_env !! "ALLOWED_CHATS"))
                   [MessagesUpsertEvent [Sample.text_from "1234@g.us" "hello"];
                    EnvironmentChanges
                      (<["SHEET_ID" := "sheet-2"]> Sample.complete_env);
                    MessagesUpsertEvent [Sample.text_from "5555@g.us" "x"]]).
  { repeat constructor. }
  apply (@session_writes_only_to_the_allow_list unit Sample.calm
           Sample.complete_env tt _ s0 s E0 E1 Hall
           ("1234@g.us", "echo hello")).
  rewrite Hr. now left.
Defined.

(** Why an unchanged [ALLOWED_CHATS] is asked for above: once the value is
    replaced, the very next message of a sender of the new list is answered,
    although the allow-list of the startup does not hold that sender. *)
Example reply_follows_a_changed_allow_list :
  let inputs :=
    [EnvironmentChanges (<["ALLOWED_CHATS" := "5555@g.us"]> Sample.complete_env);
     MessagesUpsertEvent [Sample.text_from "5555@g.us" "x"]] in
  Index.allowedChats (Sample.complete_env !! "ALLOWED_CHATS") = ["1234@g.us"]
  /\ option_map (fun s => replies (out (st s)))
       (s0 ← @start unit Sample.calm Sample.complete_env tt;
        @run unit Sample.calm inputs s0)
     = Some [("5555@g.us", "echo x")].
Proof. cbv zeta. conjuncts; vm_compute; reflexivity. Qed.

Lemma startup_lists_the_allow_list_witness :
  let s := @boot unit (Sample.env_with (Some "1234@g.us, 5511@s.whatsapp.net")
                         None) tt in
  Index.allowedChats (env s !! "ALLOWED_CHATS")
  = ["1234@g.us"; "5511@s.whatsapp.net"]
  /\ exists more,
       out (snd (@main unit Sample.calm s))
       = ([ConsoleLog Starting; ConsoleLog OnlyAuthorizedChats; ConsoleLog Rule;
           ConsoleLog (ChatLabel true "1234@g.us");
           ConsoleLog (ChatLabel false "5511@s.whatsapp.net")] ++ more)%list.
Proof.
  cbv zeta.
  assert (Hl : Index.allowedChats
                 (env (@boot unit
                         (Sample.env_with (Some "1234@g.us, 5511@s.whatsapp.net")
                            None) tt) !! "ALLOWED_CHATS")
               = ["1234@g.us"; "5511@s.whatsapp.net"])
    by (vm_compute; reflexivity).
  split; [exact Hl|].
  destruct (@startup_lists_the_allow_list unit Sample.calm
              (@boot unit
                 (Sample.env_with (Some "1234@g.us, 5511@s.whatsapp.net") None)
                 tt)
              ltac:(rewrite Hl; discriminate)) as [[more Hmore] _].
  rewrite Hl in Hmore. exists more. exact Hmore.
Defined.

Lemma conversation_text_comes_first_witness :
  let s := mkState Sample.complete_env tt (Some 0%nat) [] [] in
  let m := {| conversation := Some "";
              extendedTextMessage := Some {| text := Some "quoted answer" |} |} in
  let msg := {| key := {| fromMe := false; remoteJid := "1234@g.us" |};
                message_ := Some m |} in
  passes (WhatsApp.allowedChats (env s !! "ALLOWED_CHATS"))
         (remoteJid (key msg)) = true
  /\ handler_calls
       (out (snd (upsert_body (@onMessage unit Sample.calm) msg s)))
     = ["quoted answer"].
Proof.
  cbv zeta.
  assert (Hp : passes
                 (WhatsApp.allowedChats
                    (Sample.complete_env !! "ALLOWED_CHATS"))
                 "1234@g.us" = true)
    by (vm_compute; reflexivity).
  split; [exact Hp|].
  exact (@conversation_text_comes_first unit Sample.calm
           (mkState Sample.complete_env tt (Some 0%nat) [] [])
           {| key := {| fromMe := false; remoteJid := "1234@g.us" |};
              message_ :=
                Some {| conversation := Some "";
                        extendedTextMessage :=
                          Some {| text := Some "quoted answer" |} |} |}
           {| conversation := Some "";
              extendedTextMessage := Some {| text := Some "quoted answer" |} |}
           eq_refl eq_refl Hp).
Defined.
